(** * Monte-Carlo demonstrations of [L9/Markov+Chain+Monte-Carlo.ipynb]

    A shallow embedding of the notebook's samplers:
    [GammaUnnorm], [rejSamplingDemo], [impSamplingDemo], [MCMCDemo] and
    the burn-in cell that calls [MCMCDemo] twice.

    Numbers are numpy [float64] values, modelled bit for bit by the
    IEEE 754 binary64 instance of the Standard Library's [SpecFloat]
    (53 bits of precision, infinities at exponent 1024).  Division by
    zero therefore yields an infinity or a NaN, as it does on numpy
    scalars and arrays; it does not raise.

    numpy's process-wide random generator is threaded explicitly: a
    computation that draws random numbers is a function from the
    generator state to a result and the next generator state. *)

From Stdlib Require Import ZArith QArith Qpower Lqa Bool List Lia.
From Stdlib Require Import Floats.SpecFloat.
From stdpp Require Import base list.

Local Open Scope Z_scope.

(** ** binary64 arithmetic *)

Module F64.

Definition prec : Z := 53.
Definition emax : Z := 1024.

Abbreviation float := spec_float.

Definition add : float -> float -> float := SFadd prec emax.
Definition sub : float -> float -> float := SFsub prec emax.
Definition mul : float -> float -> float := SFmul prec emax.
Definition div : float -> float -> float := SFdiv prec emax.
Definition opp : float -> float := SFopp.
Definition ltb : float -> float -> bool := SFltb.
Definition leb : float -> float -> bool := SFleb.
Definition eqb : float -> float -> bool := SFeqb.

(** Conversion of a Python integer to a double (round to nearest even). *)
Definition of_Z (z : Z) : float := binary_normalize prec emax z 0 false.

Definition zero : float := S754_zero false.
Definition one : float := Eval cbv in of_Z 1.
Definition nan : float := S754_nan.

(** [np.finfo(np.float64).max]. *)
Definition max_float : float := Eval cbv in SFmax_float prec emax.

(** [np.nan_to_num] with its default arguments: NaN becomes 0.0, the
    infinities become the largest and the smallest finite double, every
    other value is returned unchanged. *)
Definition nan_to_num (x : float) : float :=
  match x with
  | S754_nan => zero
  | S754_infinity false => max_float
  | S754_infinity true => opp max_float
  | _ => x
  end.

(** Python's builtin [min(a, b)] on two arguments: it starts from [a]
    and replaces it by [b] only if [b < a]. *)
Definition py_min (a b : float) : float := if ltb b a then b else a.

Definition is_nan (x : float) : bool :=
  match x with S754_nan => true | _ => false end.

(** [x == 0] as numpy decides it: both signed zeros compare equal to 0. *)
Definition is_zero (x : float) : bool := eqb x zero.

(** [0 < x]: a positive finite number or plus infinity. *)
Definition is_pos (x : float) : bool := ltb zero x.

(** [u] lies in the half-open interval [0,1), the range of
    [np.random.uniform(0,1)]. *)
Definition in_unit (u : float) : bool := leb zero u && ltb u one.

(** Positive and finite. *)
Definition pos_finite (x : float) : bool :=
  match x with S754_finite false _ _ => true | _ => false end.

End F64.

Import F64.

(** ** Computations that draw from the global generator *)

Definition Rand (G A : Type) : Type := G -> A * G.

Definition ret {G A} (a : A) : Rand G A := fun g => (a, g).

Definition bind {G A B} (c : Rand G A) (k : A -> Rand G B) : Rand G B :=
  fun g => let (a, g') := c g in k a g'.

Declare Scope rand_scope.
Delimit Scope rand_scope with rand.
Notation "x <- c ;; k" := (bind c (fun x => k))
  (at level 100, c at next level, right associativity) : rand_scope.
Local Open Scope rand_scope.

(** ** Library functions the notebook calls

    [np.sum], [pow] and [exp] are numpy's; the embedding takes them as
    parameters, so every theorem holds for whatever these functions
    compute.  [np.mean] of a one-dimensional float64 array is the
    sum of the array divided by its length. *)

Section Numpy.

Variable np_sum : list float -> float.

Definition np_mean (xs : list float) : float :=
  div (np_sum xs) (of_Z (Z.of_nat (length xs))).

End Numpy.

(** [wl / np.sum(wl)]: every entry divided by the sum of the array.  The
    expression is written once, over any number type with a division and
    a sum, so that it can be read both in binary64 and in exact
    arithmetic. *)
Definition normalize_by {A : Type} (divA : A -> A -> A) (sumA : list A -> A)
  (wl : list A) : list A :=
  (fun w => divA w (sumA wl)) <$> wl.

Definition normalize_weights (np_sum : list float -> float)
  : list float -> list float :=
  normalize_by div np_sum.

(** Exact sum of a list of rationals. *)
Definition Qsum (ws : list Q) : Q := foldr Qplus 0%Q ws.

(** ** The unnormalized Gamma density (cell 17)
<<
def GammaUnnorm(x, a=1.99, b=1):
    return np.nan_to_num((b**a) * (x**(a-1)) * np.exp(-b*x))
>>
    [fpow] stands for the power function behind [**] and [fexp] for
    [np.exp].  On an array the function acts entry by entry. *)

Section Gamma.

Variable fpow : float -> float -> float.
Variable fexp : float -> float.

Definition GammaUnnorm_raw (x a b : float) : float :=
  mul (mul (fpow b a) (fpow x (sub a one))) (fexp (mul (opp b) x)).

Definition GammaUnnorm (x a b : float) : float :=
  nan_to_num (GammaUnnorm_raw x a b).

End Gamma.

(** ** Metropolis-Hastings (cell 43)
<<
def MCMCDemo(x, phat, qpdf, qsample, N, T=100):
    xs = np.zeros(N)
    for i in range(N):
        for t in range(T): # record after T samples
            u = np.random.uniform(0,1)
            xc = qsample(x)
            if u < min(1, np.nan_to_num((phat(xc)*qpdf(x,xc)) / (phat(x)*qpdf(xc,x)))):
                x = xc
        xs[i] = x
    estmean = np.mean(xs)
    return estmean, xs
>>
    [N] and [T] are natural numbers: [np.zeros] refuses a negative [N],
    and [range(T)] is empty for [T <= 0].  [phat] and [qpdf] return
    float64 values, as [GammaUnnorm] and [stats.norm.pdf] do. *)

Section MetropolisHastings.

Variable G : Type.
Variable np_sum : list float -> float.
Variable uniform01 : Rand G float.
Variable phat : float -> float.
Variable qpdf : float -> float -> float.
Variable qsample : float -> Rand G float.

Definition ratio_num (x xc : float) : float := mul (phat xc) (qpdf x xc).
Definition ratio_den (x xc : float) : float := mul (phat x) (qpdf xc x).

Definition raw_ratio (x xc : float) : float :=
  div (ratio_num x xc) (ratio_den x xc).

Definition accept_ratio (x xc : float) : float :=
  nan_to_num (raw_ratio x xc).

Definition accepts (u x xc : float) : bool :=
  ltb u (py_min one (accept_ratio x xc)).

(** The body of the inner loop: one proposal, accepted or not. *)
Definition mh_step (x : float) : Rand G float :=
  u <- uniform01 ;;
  xc <- qsample x ;;
  ret (if accepts u x xc then xc else x).

(** [for t in range(T)]. *)
Fixpoint inner_loop (T : nat) (x : float) : Rand G float :=
  match T with
  | O => ret x
  | S t => x' <- mh_step x ;; inner_loop t x'
  end.

(** [for i in range(N)], over the indices still to visit. *)
Fixpoint outer_loop (T : nat) (idx : list nat) (x : float) (xs : list float)
  : Rand G (float * list float) :=
  match idx with
  | [] => ret (x, xs)
  | i :: rest =>
      x' <- inner_loop T x ;;
      outer_loop T rest x' (<[i := x']> xs)
  end.

Definition MCMCDemo (x : float) (N T : nat) : Rand G (float * list float) :=
  r <- outer_loop T (seq 0 N) x (replicate N zero) ;;
  let xs := snd r in
  ret (np_mean np_sum xs, xs).

(** Cell 44: a burn-in call whose result is dropped, then the
    recording call.
<<
MCMCDemo(0, phat, qpdf, qsample, N=Nburnin, T=1)
estmean, xs = MCMCDemo(x, phat, qpdf, qsample, N=N, T=T)
>> *)
Definition burnin_then_sample (x0 x : float) (Nburnin N T : nat)
  : Rand G (float * list float) :=
  _ <- MCMCDemo x0 Nburnin 1 ;;
  MCMCDemo x N T.

End MetropolisHastings.

(** ** Rejection and importance sampling (cells 20 and 33)

    The proposal [qpdf] is a frozen scipy distribution: [rvs] draws an
    array of the requested size from the global generator, [pdf] is its
    density, applied entry by entry. *)

Record Distribution (G : Type) : Type := {
  rvs : nat -> Rand G (list float);
  pdf : float -> float
}.
Arguments rvs {G} _ _ _.
Arguments pdf {G} _ _.

(** [np.where(t == True)[0]]: the indices of the true entries, in
    increasing order. *)
Fixpoint where_from (i : nat) (t : list bool) : list nat :=
  match t with
  | [] => []
  | b :: r => if Bool.eqb b true then i :: where_from (S i) r
              else where_from (S i) r
  end.

Definition np_where_true (t : list bool) : list nat := where_from 0 t.

(** [x[ic]] for an integer index array; an index out of range raises
    [IndexError], here [None]. *)
Definition fancy_index (x : list float) (ic : list nat) : option (list float) :=
  mapM (fun i => x !! i) ic.

Section Estimators.

Variable G : Type.
Variable np_sum : list float -> float.
Variable fpow : float -> float -> float.
Variable fexp : float -> float.
(** [random.uniform(0,1,N)] *)
Variable uniformN : nat -> Rand G (list float).

(** The acceptance bound of one sample:
    [GammaUnnorm(x, a=a, b=b)/(k*qpdf.pdf(x))]. *)
Definition rej_bound (a b : float) (qpdf : Distribution G) (k x : float) : float :=
  div (GammaUnnorm fpow fexp x a b) (mul k (pdf qpdf x)).

(**
<<
def rejSamplingDemo(a,b, qpdf, k, N=10000):
  x = qpdf.rvs(size=N)
  u = random.uniform(0,1,N)
  t = u < GammaUnnorm(x, a=a, b=b)/(k*qpdf.pdf(x))
  ic = np.where(t == True)[0] #inside indices
  estmean = np.mean(x[ic])
  return estmean, x[ic],
>> *)
Definition rejSamplingDemo (a b : float) (qpdf : Distribution G) (k : float)
  (N : nat) : Rand G (option (float * list float)) :=
  x <- rvs qpdf N ;;
  u <- uniformN N ;;
  let t := zip_with ltb u (rej_bound a b qpdf k <$> x) in
  let ic := np_where_true t in
  ret (match fancy_index x ic with
       | Some acc => Some (np_mean np_sum acc, acc)
       | None => None
       end).

(** The importance weight of one sample before normalization:
    [GammaUnnorm(x,a,b)/qpdf.pdf(x)]. *)
Definition raw_weight (a b : float) (qpdf : Distribution G) (x : float) : float :=
  div (GammaUnnorm fpow fexp x a b) (pdf qpdf x).

(**
<<
def impSamplingDemo(a,b, qpdf, N=10000):
  x = qpdf.rvs(size=N)
  wl = GammaUnnorm(x,a,b)/qpdf.pdf(x)
  wl = wl / np.sum(wl)
  estmean = np.sum(x*wl)
  return estmean, x, wl
>> *)
Definition impSamplingDemo (a b : float) (qpdf : Distribution G) (N : nat)
  : Rand G (float * list float * list float) :=
  x <- rvs qpdf N ;;
  let wl := raw_weight a b qpdf <$> x in
  let wl := normalize_weights np_sum wl in
  let estmean := np_sum (zip_with mul x wl) in
  ret (estmean, x, wl).

End Estimators.

(** ** The algorithm as the specification words it

    Section 4.1 of the specification, step by step: the acceptance ratio
    with "any resulting NaN treated as 0", the minimum of 1 and the
    ratio, [T] inner steps per output slot, the state recorded after
    them, and the sequence returned with its mean.  A step draws the
    uniform number and the candidate from the same generator, the
    uniform number first, in the order in which the code consumes it. *)

Section MHSpec.

Variable G : Type.
Variable np_sum : list float -> float.
Variable uniform01 : Rand G float.
Variable phat : float -> float.
Variable qpdf : float -> float -> float.
Variable qsample : float -> Rand G float.

Definition spec_ratio (current candidate : float) : float :=
  let r := div (mul (phat candidate) (qpdf current candidate))
               (mul (phat current) (qpdf candidate current)) in
  if is_nan r then zero else r.

(** The smaller of two numbers. *)
Definition fmin (a b : float) : float := if leb a b then a else b.

Definition spec_step (current : float) : Rand G float :=
  u <- uniform01 ;;
  candidate <- qsample current ;;
  ret (if ltb u (fmin one (spec_ratio current candidate))
       then candidate else current).

Fixpoint spec_repeat (T : nat) (current : float) : Rand G float :=
  match T with
  | O => ret current
  | S t => next <- spec_step current ;; spec_repeat t next
  end.

Fixpoint spec_slots (N T : nat) (current : float) : Rand G (list float) :=
  match N with
  | O => ret []
  | S n =>
      recorded <- spec_repeat T current ;;
      rest <- spec_slots n T recorded ;;
      ret (recorded :: rest)
  end.

Definition MH_spec (x0 : float) (N T : nat) : Rand G (float * list float) :=
  out <- spec_slots N T x0 ;;
  ret (np_mean np_sum out, out).

End MHSpec.

(** ** Concrete instances

    A generator that replays a tape of numbers, a left-to-right sum, and
    the values of [pow], [exp] and the standard normal density at the few
    arguments the examples evaluate.  They instantiate the parameters of
    the embedding wherever a statement is checked on concrete numbers. *)

Module Demo.

Definition tape : Type := list float.

Definition clamp_unit (u : float) : float := if in_unit u then u else zero.

(** [np.random.uniform(0,1)]: the next number of the tape, if it lies
    in [0,1). *)
Definition tape_uniform01 : Rand tape float :=
  fun g => match g with
           | [] => (zero, [])
           | u :: r => (clamp_unit u, r)
           end.

(** A random-walk proposal, [stats.norm.rvs(mu, 1.0)]: the current
    state plus the next number of the tape. *)
Definition tape_qsample (mu : float) : Rand tape float :=
  fun g => match g with
           | [] => (mu, [])
           | z :: r => (add mu z, r)
           end.

(** An array of [n] draws: the next [n] numbers of the tape. *)
Definition tape_draws (n : nat) : Rand tape (list float) :=
  fun g => (take n g ++ replicate (n - length g) zero, drop n g).

Definition tape_uniformN (n : nat) : Rand tape (list float) :=
  fun g => (clamp_unit <$> fst (tape_draws n g), drop n g).

(** Summation from left to right, starting from 0.0. *)
Definition seq_sum (xs : list float) : float := foldl add zero xs.

Definition half : float := S754_finite false 4503599627370496 (-53).
Definition quarter : float := S754_finite false 4503599627370496 (-54).
Definition ten : float := Eval cbv in of_Z 10.
Definition two_and_half : float := S754_finite false 5629499534213120 (-51).
Definition minus_one : float := Eval cbv in of_Z (-1).

(** [exp] at 0 (exactly 1) and at -1 (0.36787944117144233); other
    arguments are not tabulated and give NaN. *)
Definition exp_tab (x : float) : float :=
  match x with
  | S754_zero _ => one
  | S754_finite true 4503599627370496 (-52) =>
      S754_finite false 6627126856707896 (-54)
  | _ => nan
  end.

(** [pow]: [pow(x, 0) = 1], [pow(1, y) = 1] and [pow(+0, y) = +0] for
    [y > 0]; other arguments are not tabulated and give NaN. *)
Definition pow_tab (x y : float) : float :=
  match y with
  | S754_zero _ => one
  | _ =>
      match x with
      | S754_finite false 4503599627370496 (-52) => one
      | S754_zero false => if is_pos y then zero else nan
      | _ => nan
      end
  end.

(** The standard normal density at 0 (0.3989422804014327) and at
    distance 1 (0.24197072451914337); other distances are not tabulated
    and give NaN. *)
Definition norm_pdf_tab (d : float) : float :=
  match d with
  | S754_zero _ => S754_finite false 7186705221432913 (-54)
  | S754_finite _ 4503599627370496 (-52) =>
      S754_finite false 8717914118231864 (-55)
  | _ => nan
  end.

(** Cell 44: [phat = lambda x : GammaUnnorm(x, a=a, b=b)] with
    [a = 2.5], [b = 1], and [qpdf = lambda x, mu : stats.norm.pdf(x, mu, 1.0)]. *)
Definition phat_gamma (x : float) : float :=
  GammaUnnorm pow_tab exp_tab x two_and_half one.

Definition qpdf_norm (x mu : float) : float := norm_pdf_tab (sub x mu).

(** A target that is 1 on the positive half-line and 0 elsewhere, and
    a flat proposal density. *)
Definition phat_halfline (x : float) : float :=
  if ltb zero x then one else zero.

Definition qpdf_flat (_ _ : float) : float := one.

Definition dist_flat : Distribution tape :=
  {| rvs := tape_draws; pdf := fun _ => one |}.

End Demo.

(** ** The accepted subset, as the specification words it

    "Accept sample [i] iff its uniform draw is below the ratio of the
    unnormalized target density to [k] times the proposal density at
    that sample": the samples, in order, whose own draw is strictly
    below their bound. *)
Definition accepted_subset (bound : float -> float) (x u : list float)
  : list float :=
  fst <$> List.filter (fun p => ltb (snd p) (bound (fst p))) (zip x u).

(** ** Sign information

    [sign_of] is the sign bit of a number that is not a NaN;
    [nan_or_sign s x] says that [x] is either a NaN or carries the sign
    [s].  Rounding never changes a sign, which is all the proofs below
    need to know about it. *)

Definition sign_of (x : float) : option bool :=
  match x with
  | S754_nan => None
  | S754_zero s | S754_infinity s | S754_finite s _ _ => Some s
  end.

Definition nan_or_sign (s : bool) (x : float) : bool :=
  match sign_of x with
  | None => true
  | Some s' => Bool.eqb s s'
  end.

Definition zero_or_nan (x : float) : bool := is_zero x || is_nan x.

(** ** The remaining functions of the notebook *)

(** A number that is neither a NaN nor an infinity. *)
Definition is_finite (x : float) : bool :=
  match x with
  | S754_zero _ | S754_finite _ _ _ => true
  | _ => false
  end.

(** [np.where(t == False)[0]]. *)
Fixpoint where_false_from (i : nat) (t : list bool) : list nat :=
  match t with
  | [] => []
  | b :: r => if Bool.eqb b false then i :: where_false_from (S i) r
              else where_false_from (S i) r
  end.

Definition np_where_false (t : list bool) : list nat := where_false_from 0 t.

(** The entries of [x] whose mask entry is [v], in order. *)
Definition select_by {A : Type} (v : bool) (x : list A) (t : list bool) : list A :=
  fst <$> List.filter (fun p => Bool.eqb (snd p) v) (zip x t).

(** [a/b] on two Python integers: [ZeroDivisionError] ([None]) when [b]
    is 0, otherwise the quotient as a double.  Both integers are array
    lengths, far below 2^53, so they convert to doubles exactly. *)
Definition py_true_div (a b : nat) : option float :=
  if Nat.eqb b 0 then None
  else Some (div (of_Z (Z.of_nat a)) (of_Z (Z.of_nat b))).

(** The normalized Gamma density (cell 17)
<<
def Gamma(x, a=1.99, b=1):
    return GammaUnnorm(x, a=a, b=b)/sp.special.gamma(a)
>> *)
Definition Gamma (fpow : float -> float -> float) (fexp fgamma : float -> float)
  (x a b : float) : float :=
  div (GammaUnnorm fpow fexp x a b) (fgamma a).

(** Estimating pi (cell 10)
<<
def estimatePi(N=1000, boxsize=1.0, doplot=True):
    x = random.uniform(0, boxsize, N)
    y = random.uniform(0, boxsize, N)
    t = x**2 + y**2 <= 1
    ic = np.where(t == True)[0] #inside indices
    oc = np.where(t == False)[0] #outside indices
    Nin = ic.shape[0]
    pi_est = 4*(Nin/N)*((boxsize)**2)
    if doplot:
        plt.scatter(x[ic],y[ic], c='green')
        plt.scatter(x[oc],y[oc], c='red', marker='.')
    return pi_est
>>
    The two [plt.scatter] calls are the function's only effect besides
    the draws; the embedding returns their data next to the estimate:
    the green and the red point cloud, each as its x and y coordinates,
    or no cloud when [doplot] is false.  [x**2] on an array is the
    entrywise square. *)

Section EstimatePi.

Variable G : Type.
(** [random.uniform(low, high, N)] *)
Variable uniform_array : float -> float -> nat -> Rand G (list float).
Variable fpow : float -> float -> float.

Definition in_circle (xi yi : float) : bool :=
  leb (add (mul xi xi) (mul yi yi)) one.

Definition estimatePi (N : nat) (boxsize : float) (doplot : bool)
  : Rand G (option (float * list (list float * list float))) :=
  x <- uniform_array zero boxsize N ;;
  y <- uniform_array zero boxsize N ;;
  let t := zip_with in_circle x y in
  let ic := np_where_true t in
  let oc := np_where_false t in
  let Nin := length ic in
  ret (match py_true_div Nin N with
       | None => None
       | Some ratio =>
           let pi_est := mul (mul (of_Z 4) ratio) (fpow boxsize (of_Z 2)) in
           if doplot then
             match fancy_index x ic, fancy_index y ic,
                   fancy_index x oc, fancy_index y oc with
             | Some gx, Some gy, Some rx, Some ry =>
                 Some (pi_est, [(gx, gy); (rx, ry)])
             | _, _, _, _ => None
             end
           else Some (pi_est, [])
       end).

End EstimatePi.

(** The unnormalized mixture density (cell 48)
<<
def GMMUnnorm(x, pi, normpdfs):
    logp = 0
    for i in range(pi.shape[0]):
        logp += exp(log(pi[i]) + normpdfs[i].logpdf(x))
    return logp
>>
    A component is used through its [logpdf] only, so [normpdfs] is a
    list of log-densities.  [normpdfs[i]] beyond the end of the array
    raises [IndexError], here [None]. *)

Section GMM.

Variable fexp : float -> float.
Variable flog : float -> float.

Fixpoint GMM_loop (idx : list nat) (x : float) (pi : list float)
  (normpdfs : list (float -> float)) (logp : float) : option float :=
  match idx with
  | [] => Some logp
  | i :: rest =>
      match pi !! i, normpdfs !! i with
      | Some w, Some logpdf =>
          GMM_loop rest x pi normpdfs (add logp (fexp (add (flog w) (logpdf x))))
      | _, _ => None
      end
  end.

Definition GMMUnnorm (x : float) (pi : list float)
  (normpdfs : list (float -> float)) : option float :=
  GMM_loop (seq 0 (length pi)) x pi normpdfs zero.

(** One term of the mixture. *)
Definition GMM_term (x : float) (c : float * (float -> float)) : float :=
  fexp (add (flog (fst c)) (snd c x)).

End GMM.

(** Further concrete instances. *)

Module DemoMore.

(** [random.uniform(low, high, n)]: the next [n] numbers of the tape. *)
Definition tape_uniform_array (low high : float) (n : nat)
  : Rand Demo.tape (list float) := Demo.tape_draws n.

(** A proposal that reflects the random walk at 0: the distance of the
    walk's next position from 0. *)
Definition qsample_reflect (mu : float) : Rand Demo.tape float :=
  fun g => let (z, r) := Demo.tape_qsample mu g in (SFabs z, r).

(** A proposal that only ever proposes points left of 0. *)
Definition qsample_left (mu : float) : Rand Demo.tape float :=
  fun g => let (z, r) := Demo.tape_qsample mu g in (opp (SFabs z), r).

Definition two : float := Eval cbv in of_Z 2.

(** [log] at 1 (exactly 0); other arguments are not tabulated and give
    NaN. *)
Definition log_tab (x : float) : float :=
  match x with
  | S754_finite false 4503599627370496 (-52) => zero
  | _ => nan
  end.

(** A log-density that is 0 at every point. *)
Definition logpdf_flat (_ : float) : float := zero.

(** [pow(x, 2)] as the exact square. *)
Definition pow_square (x y : float) : float := mul x x.

(** The Gamma function at 1 (exactly 1) and at 2.5
    (1.3293403881791372); other arguments are not tabulated and give
    NaN. *)
Definition gamma_tab (x : float) : float :=
  match x with
  | S754_finite false 4503599627370496 (-52) => one
  | S754_finite false 5629499534213120 (-51) =>
      S754_finite false 5986816876852113 (-52)
  | _ => nan
  end.

(** [exp] at 0 (exactly 1), at -1 (0.36787944117144233) and at 1
    (2.718281828459045); other arguments are not tabulated and give
    NaN. *)
Definition exp_tab1 (x : float) : float :=
  match x with
  | S754_finite false 4503599627370496 (-52) =>
      S754_finite false 6121026514868073 (-51)
  | _ => Demo.exp_tab x
  end.

End DemoMore.

(** ** The exact value of a double

    [F2Q] is the rational number a finite double stands for (0 for NaN
    and the infinities); a positive double is normal when its mantissa
    has all 53 bits; [eps] is 2^-52, the distance from 1.0 to the next
    double. *)

Definition pow2 (e : Z) : Q := Qpower 2 e.

Definition F2Q (x : float) : Q :=
  match x with
  | S754_finite s m e =>
      ((if s then (-1) else 1) * inject_Z (Z.pos m) * pow2 e)%Q
  | _ => 0%Q
  end.

Definition is_normal (x : float) : bool :=
  match x with
  | S754_finite false m _ => (4503599627370496 <=? Z.pos m)
  | _ => false
  end.

Definition eps : Q := 1 # 4503599627370496.

(** * Facts about binary64 *)

Section FloatFacts.

Lemma round_sign s m e l :
  nan_or_sign s (binary_round_aux prec emax s m e l) = true.
Proof.
  unfold binary_round_aux.
  destruct (shr_fexp prec emax m e l) as [mrs' e'].
  destruct (shr_fexp prec emax _ e' loc_Exact) as [mrs'' e''].
  destruct (shr_m mrs'') as [|p|p]; [| |reflexivity].
  - unfold nan_or_sign; simpl. apply eqb_reflx.
  - destruct (Z.leb _ _); unfold nan_or_sign; simpl; apply eqb_reflx.
Qed.

Lemma mul_sign x y sx sy :
  sign_of x = Some sx -> sign_of y = Some sy ->
  nan_or_sign (xorb sx sy) (mul x y) = true.
Proof.
  intros Hx Hy.
  destruct x as [a|a| |a mx ex], y as [b|b| |b my ey];
    simpl in Hx, Hy; try discriminate;
    injection Hx as <-; injection Hy as <-;
    try reflexivity;
    try (unfold nan_or_sign; simpl; apply eqb_reflx).
  apply round_sign.
Qed.

Lemma div_sign x y sx sy :
  sign_of x = Some sx -> sign_of y = Some sy ->
  nan_or_sign (xorb sx sy) (div x y) = true.
Proof.
  intros Hx Hy.
  destruct x as [a|a| |a mx ex], y as [b|b| |b my ey];
    simpl in Hx, Hy; try discriminate;
    injection Hx as <-; injection Hy as <-;
    try reflexivity;
    try (unfold nan_or_sign; simpl; apply eqb_reflx).
  unfold div, SFdiv.
  destruct (SFdiv_core_binary prec emax (Z.pos mx) ex (Z.pos my) ey) as [[mz ez] lz].
  apply round_sign.
Qed.

Lemma is_pos_sign x : is_pos x = true -> sign_of x = Some false.
Proof. destruct x as [s|[]| |[] m e]; simpl; intros H; try discriminate; reflexivity. Qed.

Lemma neg_sign_not_pos x : nan_or_sign true x = true -> is_pos x = false.
Proof.
  destruct x as [s|[]| |[] m e]; unfold nan_or_sign; simpl; intros H;
    try discriminate; reflexivity.
Qed.

Lemma zero_or_nan_not_pos x : zero_or_nan x = true -> is_pos x = false.
Proof.
  destruct x as [s|[]| |[] m e]; unfold zero_or_nan; simpl; intros H;
    try discriminate; reflexivity.
Qed.

(** A product of two positive numbers is positive, +0 (underflow),
    plus infinity (overflow), never negative. *)
Lemma mul_pos_pos x y :
  is_pos x = true -> is_pos y = true -> nan_or_sign false (mul x y) = true.
Proof.
  intros Hx Hy.
  apply (mul_sign x y false false); apply is_pos_sign; assumption.
Qed.

Lemma mul_zero_l x y : is_zero x = true -> zero_or_nan (mul x y) = true.
Proof.
  destruct x as [s|[]| |[] m e]; simpl; intros H; try discriminate;
    destruct y as [t|t| |t my ey]; reflexivity.
Qed.

(** If a product with a positive factor is positive, so is the other
    factor. *)
Lemma mul_pos_inv x y :
  is_pos (mul x y) = true -> is_pos y = true -> is_pos x = true.
Proof.
  intros Hm Hy.
  destruct x as [s|s| |s m e].
  - rewrite zero_or_nan_not_pos in Hm; [discriminate|].
    apply mul_zero_l. reflexivity.
  - destruct s; [|reflexivity].
    rewrite neg_sign_not_pos in Hm; [discriminate|].
    apply (mul_sign _ y true false); [reflexivity|].
    apply is_pos_sign; assumption.
  - discriminate.
  - destruct s; [|reflexivity].
    rewrite neg_sign_not_pos in Hm; [discriminate|].
    apply (mul_sign _ y true false); [reflexivity|].
    apply is_pos_sign; assumption.
Qed.

Lemma div_zero_or_nan_l n d :
  zero_or_nan n = true -> zero_or_nan (div n d) = true.
Proof.
  destruct n as [s|[]| |[] m e]; unfold zero_or_nan; simpl; intros H;
    try discriminate; destruct d as [t|t| |t md ed]; reflexivity.
Qed.

(** 0/0 and NaN/0 are NaN. *)
Lemma div_zero_zero n d :
  zero_or_nan n = true -> zero_or_nan d = true -> div n d = nan.
Proof.
  destruct n as [s|[]| |[] m e]; unfold zero_or_nan; simpl; intros Hn;
    try discriminate;
    destruct d as [t|[]| |[] md ed]; simpl; intros Hd;
    try discriminate; reflexivity.
Qed.

(** A positive quotient by a divisor that is not negative has a
    positive dividend. *)
Lemma div_pos_inv n d :
  is_pos (div n d) = true -> nan_or_sign false d = true -> is_pos n = true.
Proof.
  intros Hq Hd.
  destruct d as [t|t| |t md ed];
    try (destruct t; [discriminate Hd|]).
  - destruct n as [[]|[]| |[] m e]; simpl in Hq; try discriminate; reflexivity.
  - destruct n as [[]|[]| |[] m e]; simpl in Hq; try discriminate; reflexivity.
  - destruct n as [[]|[]| |[] m e]; simpl in Hq; discriminate.
  - destruct n as [s|[]| |[] m e]; try (simpl in Hq; discriminate);
      try reflexivity.
    rewrite neg_sign_not_pos in Hq; [discriminate|].
    apply (div_sign _ _ true false); reflexivity.
Qed.

Lemma nan_to_num_not_nan r : is_nan (nan_to_num r) = false.
Proof. destruct r as [s|[]| |s m e]; reflexivity. Qed.

Lemma nan_to_num_pos_inv r : is_pos (nan_to_num r) = true -> is_pos r = true.
Proof. destruct r as [s|[]| |s m e]; simpl; intros H; try discriminate; assumption || reflexivity. Qed.

Lemma nan_to_num_zero_or_nan r : zero_or_nan r = true -> is_zero (nan_to_num r) = true.
Proof. destruct r as [s|[]| |[] m e]; unfold zero_or_nan; simpl; intros H; try discriminate; reflexivity. Qed.

(** Nothing that is at least 0 lies strictly below 0. *)
Lemma not_below_zero u z :
  leb zero u = true -> is_zero z = true -> ltb u z = false.
Proof.
  destruct z as [s|[]| |[] m e]; simpl; intros Hu Hz; try discriminate.
  destruct u as [t|[]| |[] mu eu]; simpl in Hu |- *; try discriminate; reflexivity.
Qed.

(** [min(1, z)] is [z] itself when [z] is a zero. *)
Lemma py_min_zero z : is_zero z = true -> py_min one z = z.
Proof. destruct z as [s|[]| |[] m e]; simpl; intros Hz; try discriminate; reflexivity. Qed.

(** If a number that is at least 0 lies strictly below [min(1, r)],
    then [r] is positive. *)
Lemma below_min_pos u r :
  leb zero u = true -> is_nan r = false ->
  ltb u (py_min one r) = true -> is_pos r = true.
Proof.
  intros Hu Hn Hlt. unfold py_min in Hlt.
  destruct (ltb r one) eqn:Hr1.
  - destruct r as [s|[]| |[] m e]; try reflexivity;
      destruct u as [t|[]| |[] mu eu]; simpl in Hu, Hlt; discriminate.
  - destruct r as [s|[]| |[] m e]; try reflexivity;
      simpl in Hr1, Hn; discriminate.
Qed.

Lemma in_unit_nonneg u : in_unit u = true -> leb zero u = true.
Proof. unfold in_unit. intros H. apply andb_prop in H. apply H. Qed.

Lemma in_unit_below_one u : in_unit u = true -> ltb u one = true.
Proof. unfold in_unit. intros H. apply andb_prop in H. apply H. Qed.

End FloatFacts.

(** * The acceptance test of [MCMCDemo] *)

Section AcceptanceTest.

Variable phat : float -> float.
Variable qpdf : float -> float -> float.

Lemma den_zero_density x xc :
  is_zero (phat x) = true -> zero_or_nan (ratio_den phat qpdf x xc) = true.
Proof. intros H. apply mul_zero_l, H. Qed.

Lemma num_zero_density x xc :
  is_zero (phat xc) = true -> zero_or_nan (ratio_num phat qpdf x xc) = true.
Proof. intros H. apply mul_zero_l, H. Qed.

(** From a state of density 0, a numerator that is 0 or NaN makes the
    raw ratio a NaN, which [nan_to_num] turns into +0. *)
Lemma accept_ratio_degenerate x xc :
  is_zero (phat x) = true ->
  zero_or_nan (ratio_num phat qpdf x xc) = true ->
  accept_ratio phat qpdf x xc = zero.
Proof.
  intros Hx Hn. unfold accept_ratio, raw_ratio.
  rewrite div_zero_zero; [reflexivity | exact Hn | apply den_zero_density, Hx].
Qed.

Lemma reject_when_ratio_zero u x xc :
  leb zero u = true ->
  is_zero (accept_ratio phat qpdf x xc) = true ->
  accepts phat qpdf u x xc = false.
Proof.
  intros Hu Hz. unfold accepts.
  rewrite py_min_zero by exact Hz.
  apply not_below_zero; assumption.
Qed.

(** A positive numerator over a denominator +0 gives plus infinity;
    [nan_to_num] makes it the largest double and [min] caps it at 1. *)
Lemma accept_ratio_overflow x xc :
  is_pos (ratio_num phat qpdf x xc) = true ->
  ratio_den phat qpdf x xc = zero ->
  accept_ratio phat qpdf x xc = max_float.
Proof.
  intros Hn Hd. unfold accept_ratio, raw_ratio. rewrite Hd.
  destruct (ratio_num phat qpdf x xc) as [s|[]| |[] m e];
    simpl in Hn; try discriminate; reflexivity.
Qed.

End AcceptanceTest.

(** C1 (as amended).  When the target density at the current state is 0:
    if the numerator [phat(xc)*qpdf(x,xc)] is 0 or NaN, the acceptance
    ratio is +0 and a uniform draw [u >= 0] rejects the candidate; if the
    numerator is positive and the denominator is +0, the ratio is the
    largest finite double, [min(1, r)] is 1 and every draw [u < 1]
    accepts the candidate. *)
Theorem mh_zero_density_step (phat : float -> float)
  (qpdf : float -> float -> float) (x xc u : float) :
  is_zero (phat x) = true ->
  in_unit u = true ->
  (zero_or_nan (ratio_num phat qpdf x xc) = true ->
     accept_ratio phat qpdf x xc = zero /\ accepts phat qpdf u x xc = false)
  /\
  (is_pos (ratio_num phat qpdf x xc) = true ->
   ratio_den phat qpdf x xc = zero ->
     accept_ratio phat qpdf x xc = max_float /\ accepts phat qpdf u x xc = true).
Proof.
  intros Hx Hu. split.
  - intros Hn.
    pose proof (accept_ratio_degenerate phat qpdf x xc Hx Hn) as Hr.
    split; [exact Hr|].
    apply reject_when_ratio_zero; [apply in_unit_nonneg, Hu|].
    rewrite Hr. reflexivity.
  - intros Hn Hd.
    pose proof (accept_ratio_overflow phat qpdf x xc Hn Hd) as Hr.
    split; [exact Hr|].
    unfold accepts. rewrite Hr.
    change (py_min one max_float) with one.
    apply in_unit_below_one, Hu.
Qed.

(** C2.  The acceptance ratio is never a NaN; when the target density is
    0 at both the current and the candidate state the ratio is exactly
    +0 and a draw from [0,1) rejects; [GammaUnnorm] never returns a NaN,
    and returns +0 whenever its expression evaluates to NaN. *)
Theorem acceptance_ratio_never_nan (phat : float -> float)
  (qpdf : float -> float -> float)
  (fpow : float -> float -> float) (fexp : float -> float) :
  (forall x xc, is_nan (accept_ratio phat qpdf x xc) = false)
  /\
  (forall x xc,
     is_zero (phat x) = true -> is_zero (phat xc) = true ->
     accept_ratio phat qpdf x xc = zero /\
     forall u, in_unit u = true -> accepts phat qpdf u x xc = false)
  /\
  (forall x a b,
     is_nan (GammaUnnorm fpow fexp x a b) = false /\
     (is_nan (GammaUnnorm_raw fpow fexp x a b) = true ->
      GammaUnnorm fpow fexp x a b = zero)).
Proof.
  split; [|split].
  - intros x xc. apply nan_to_num_not_nan.
  - intros x xc Hx Hc.
    pose proof (accept_ratio_degenerate phat qpdf x xc Hx
                  (num_zero_density phat qpdf x xc Hc)) as Hr.
    split; [exact Hr|].
    intros u Hu. apply reject_when_ratio_zero; [apply in_unit_nonneg, Hu|].
    rewrite Hr. reflexivity.
  - intros x a b. split; [apply nan_to_num_not_nan|].
    unfold GammaUnnorm. destruct (GammaUnnorm_raw fpow fexp x a b);
      simpl; intros H; try discriminate; reflexivity.
Qed.

(** * The loops of [MCMCDemo] *)

Section MHLoops.

Variable G : Type.
Variable np_sum : list float -> float.
Variable uniform01 : Rand G float.
Variable phat : float -> float.
Variable qpdf : float -> float -> float.
Variable qsample : float -> Rand G float.

Local Abbreviation step := (mh_step G uniform01 phat qpdf qsample).
Local Abbreviation inner := (inner_loop G uniform01 phat qpdf qsample).
Local Abbreviation outer := (outer_loop G uniform01 phat qpdf qsample).
Local Abbreviation run := (MCMCDemo G np_sum uniform01 phat qpdf qsample).

(** Writing [xs[i] = x] never changes the length of [xs]. *)
Lemma outer_loop_length T idx :
  forall x xs g, length (snd (fst (outer T idx x xs g))) = length xs.
Proof.
  induction idx as [|i rest IH]; intros x xs g; simpl.
  - reflexivity.
  - unfold bind. destruct (inner T x g) as [x' g'].
    rewrite IH. apply length_insert.
Qed.

(** Running [a + b] steps is running [a] steps and then [b] more. *)
Lemma inner_loop_app a b :
  forall x g,
    inner (a + b) x g = let (x', g') := inner a x g in inner b x' g'.
Proof.
  induction a as [|a IH]; intros x g; simpl.
  - reflexivity.
  - unfold bind. destruct (step x g) as [x1 g1]. apply IH.
Qed.

(** The outer loop, started at index [j] with [n] slots left: it runs
    the chain for [n * T] steps and stores the state reached after
    each block of [T] steps. *)
Lemma outer_loop_chain T n :
  forall j x xs g,
    length xs = (j + n)%nat ->
    outer T (seq j n) x xs g =
      (let (xe, ge) := inner (n * T) x g in
       ((xe, take j xs ++
             map (fun i => fst (inner (S i * T) x g)) (seq 0 n)), ge)).
Proof.
  induction n as [|n IH]; intros j x xs g Hlen.
  - simpl. unfold ret. rewrite app_nil_r, take_ge by lia. reflexivity.
  - change (seq j (S n)) with (j :: seq (S j) n).
    cbn [outer_loop]. unfold bind.
    change (S n * T)%nat with (T + n * T)%nat.
    rewrite inner_loop_app.
    destruct (inner T x g) as [x' g'] eqn:Hin.
    rewrite IH by (rewrite length_insert; lia).
    destruct (inner (n * T) x' g') as [xe ge].
    f_equal. f_equal.
    rewrite (take_S_r _ j x')
      by (apply list_lookup_insert_eq; lia).
    rewrite take_insert_ge by lia.
    rewrite <- app_assoc. f_equal.
    change (seq 0 (S n)) with (0%nat :: seq 1 n).
    rewrite <- seq_shift. cbn [map app]. rewrite map_map.
    f_equal.
    + rewrite Nat.mul_1_l, Hin. reflexivity.
    + apply map_ext. intros i.
      change (S (S i) * T)%nat with (T + S i * T)%nat.
      rewrite inner_loop_app, Hin. reflexivity.
Qed.

(** The recorded samples are the states of one chain after
    [T], [2T], ..., [N*T] steps. *)
Lemma MCMCDemo_thinned x N T g :
  snd (fst (run x N T g)) =
    map (fun i => fst (inner (S i * T) x g)) (seq 0 N).
Proof.
  unfold MCMCDemo, bind.
  rewrite outer_loop_chain by (rewrite length_replicate; lia).
  destruct (inner (N * T) x g) as [xe ge]. reflexivity.
Qed.

Lemma MCMCDemo_generator x N T g :
  snd (run x N T g) = snd (inner (N * T) x g).
Proof.
  unfold MCMCDemo, bind.
  rewrite outer_loop_chain by (rewrite length_replicate; lia).
  destruct (inner (N * T) x g) as [xe ge]. reflexivity.
Qed.

End MHLoops.

(** C4.  For every initial state, target, proposal, sample count [N]
    and thinning interval [T >= 1], the sequence returned by [MCMCDemo]
    has exactly [N] entries. *)
Theorem MCMCDemo_output_length (G : Type) (np_sum : list float -> float)
  (uniform01 : Rand G float) (phat : float -> float)
  (qpdf : float -> float -> float) (qsample : float -> Rand G float)
  (x0 : float) (N T : nat) (g : G) :
  (1 <= T)%nat ->
  length (snd (fst (MCMCDemo G np_sum uniform01 phat qpdf qsample x0 N T g))) = N.
Proof.
  intros _. unfold MCMCDemo, bind.
  pose proof (outer_loop_length G uniform01 phat qpdf qsample T (seq 0 N) x0
                (replicate N zero) g) as Hlen.
  destruct (outer_loop G uniform01 phat qpdf qsample T (seq 0 N) x0
              (replicate N zero) g) as [[xe xs] ge].
  cbn [fst snd] in *. unfold ret. cbn [fst snd].
  rewrite Hlen. apply length_replicate.
Qed.

(** * [MCMCDemo] against the algorithm of the specification *)

Section MHRefinement.

Variable G : Type.
Variable np_sum : list float -> float.
Variable uniform01 : Rand G float.
Variable phat : float -> float.
Variable qpdf : float -> float -> float.
Variable qsample : float -> Rand G float.

(** [np.random.uniform(0,1)] returns a number of [0,1). *)
Hypothesis uniform01_unit : forall g, in_unit (fst (uniform01 g)) = true.

Local Abbreviation inner := (inner_loop G uniform01 phat qpdf qsample).
Local Abbreviation outer := (outer_loop G uniform01 phat qpdf qsample).
Local Abbreviation srepeat := (spec_repeat G uniform01 phat qpdf qsample).
Local Abbreviation sslots := (spec_slots G uniform01 phat qpdf qsample).

Lemma ltb_negb_leb_finite m e p q :
  ltb (S754_finite false m e) (S754_finite false p q) =
  negb (leb (S754_finite false p q) (S754_finite false m e)).
Proof.
  unfold ltb, leb, SFltb, SFleb. cbn [SFcompare].
  rewrite (Z.compare_antisym e q).
  destruct (e ?= q); cbn [CompOpp]; try reflexivity.
  assert (Pos.compare_cont Eq p m = CompOpp (Pos.compare_cont Eq m p)) as ->
    by (symmetry; apply (Pos.compare_cont_antisym m p Eq)).
  destruct (Pos.compare_cont Eq m p); reflexivity.
Qed.

(** Python's [min(1, r)] and the smaller of 1 and [r] agree on every
    [r] that is not a NaN. *)
Lemma py_min_fmin r : is_nan r = false -> py_min one r = fmin one r.
Proof.
  intros Hr. unfold py_min, fmin.
  destruct r as [s|[]| |[] m e]; try reflexivity; try discriminate.
  unfold one. rewrite ltb_negb_leb_finite.
  destruct (leb _ _); reflexivity.
Qed.

(** The test of the code and the test of the specification decide
    alike for every draw [u >= 0]: they differ only in how an infinite
    ratio is represented. *)
Lemma accept_test_agree u r :
  leb zero u = true ->
  ltb u (py_min one (nan_to_num r)) =
  ltb u (fmin one (if is_nan r then zero else r)).
Proof.
  intros Hu.
  destruct r as [s|[]| |s m e].
  - rewrite py_min_fmin; reflexivity.
  - destruct u as [t|[]| |[] mu eu]; try discriminate; reflexivity.
  - reflexivity.
  - reflexivity.
  - rewrite py_min_fmin; reflexivity.
Qed.

Lemma step_agree x g :
  mh_step G uniform01 phat qpdf qsample x g =
  spec_step G uniform01 phat qpdf qsample x g.
Proof.
  unfold mh_step, spec_step, bind.
  pose proof (uniform01_unit g) as Hu.
  destruct (uniform01 g) as [u g1]. simpl in Hu.
  destruct (qsample x g1) as [xc g2].
  unfold ret, accepts, accept_ratio, raw_ratio, ratio_num, ratio_den, spec_ratio.
  cbv zeta.
  rewrite accept_test_agree by (apply in_unit_nonneg, Hu).
  reflexivity.
Qed.

Lemma inner_agree T : forall x g, inner T x g = srepeat T x g.
Proof.
  induction T as [|T IH]; intros x g; simpl.
  - reflexivity.
  - unfold bind. rewrite step_agree.
    destruct (spec_step G uniform01 phat qpdf qsample x g) as [x' g'].
    apply IH.
Qed.

(** The array filled by index holds, from position [j] on, the list
    the specification builds slot by slot. *)
Lemma outer_loop_slots T n :
  forall j x xs g,
    length xs = (j + n)%nat ->
    snd (fst (outer T (seq j n) x xs g)) = take j xs ++ fst (sslots n T x g)
    /\ snd (outer T (seq j n) x xs g) = snd (sslots n T x g).
Proof.
  induction n as [|n IH]; intros j x xs g Hlen.
  - simpl. rewrite app_nil_r, take_ge by lia. split; reflexivity.
  - change (seq j (S n)) with (j :: seq (S j) n).
    cbn [outer_loop spec_slots]. unfold bind.
    rewrite inner_agree.
    destruct (srepeat T x g) as [x' g'].
    destruct (IH (S j) x' (<[j:=x']> xs) g') as [IH1 IH2];
      [rewrite length_insert; lia|].
    rewrite IH1, IH2.
    destruct (sslots n T x' g') as [rest ge]. simpl.
    split; [|reflexivity].
    rewrite (take_S_r _ j x') by (apply list_lookup_insert_eq; lia).
    rewrite take_insert_ge by lia.
    rewrite <- app_assoc. reflexivity.
Qed.

End MHRefinement.

(** C3.  With uniform draws in [0,1), [MCMCDemo] computes exactly what
    the algorithm of the specification computes: per output slot [T]
    steps, each drawing a uniform [u] and a candidate from
    [qsample(current)] and moving iff [u < min(1, r)], where [r] is the
    ratio [(phat(c)*qpdf(x,c)) / (phat(x)*qpdf(c,x))] with NaN read as
    0; the state after the [T] steps is recorded, and the recorded
    sequence is returned with its mean. *)
Theorem MCMCDemo_refines_spec (G : Type) (np_sum : list float -> float)
  (uniform01 : Rand G float) (phat : float -> float)
  (qpdf : float -> float -> float) (qsample : float -> Rand G float) :
  (forall g, in_unit (fst (uniform01 g)) = true) ->
  forall (x0 : float) (N T : nat) (g : G),
    MCMCDemo G np_sum uniform01 phat qpdf qsample x0 N T g =
    MH_spec G np_sum uniform01 phat qpdf qsample x0 N T g.
Proof.
  intros Hu x0 N T g. unfold MCMCDemo, MH_spec, bind.
  destruct (outer_loop_slots G uniform01 phat qpdf qsample Hu T N 0 x0
              (replicate N zero) g) as [Hxs Hg];
    [rewrite length_replicate; lia|].
  destruct (outer_loop G uniform01 phat qpdf qsample T (seq 0 N) x0
              (replicate N zero) g) as [[xe xs] ge].
  destruct (spec_slots G uniform01 phat qpdf qsample N T x0 g) as [out gs].
  cbn [fst snd take app] in Hxs, Hg. subst xs ge. reflexivity.
Qed.

(** * The chain never leaves the support of a positive target *)

Section PositiveDensity.

Variable G : Type.
Variable np_sum : list float -> float.
Variable uniform01 : Rand G float.
Variable phat : float -> float.
Variable qpdf : float -> float -> float.
Variable qsample : float -> Rand G float.

Hypothesis uniform01_unit : forall g, in_unit (fst (uniform01 g)) = true.
Hypothesis qpdf_pos : forall x y, is_pos (qpdf x y) = true.

Local Abbreviation inner := (inner_loop G uniform01 phat qpdf qsample).

(** An accepted candidate has positive density. *)
Lemma accepted_pos u x xc :
  leb zero u = true ->
  is_pos (phat x) = true ->
  accepts phat qpdf u x xc = true ->
  is_pos (phat xc) = true.
Proof.
  intros Hu Hx Hacc. unfold accepts in Hacc.
  apply below_min_pos in Hacc;
    [|exact Hu|apply nan_to_num_not_nan].
  apply nan_to_num_pos_inv in Hacc.
  apply div_pos_inv in Hacc;
    [|apply mul_pos_pos; [exact Hx|apply qpdf_pos]].
  apply (mul_pos_inv _ _ Hacc), qpdf_pos.
Qed.

(** A candidate of density 0 has acceptance ratio 0. *)
Lemma zero_candidate_ratio x xc :
  is_zero (phat xc) = true ->
  is_zero (accept_ratio phat qpdf x xc) = true.
Proof.
  intros Hc. apply nan_to_num_zero_or_nan, div_zero_or_nan_l.
  apply num_zero_density, Hc.
Qed.

Lemma mh_step_pos x g :
  is_pos (phat x) = true ->
  is_pos (phat (fst (mh_step G uniform01 phat qpdf qsample x g))) = true.
Proof.
  intros Hx. unfold mh_step, bind.
  pose proof (uniform01_unit g) as Hu.
  destruct (uniform01 g) as [u g1]. simpl in Hu.
  destruct (qsample x g1) as [xc g2]. simpl.
  destruct (accepts phat qpdf u x xc) eqn:Hacc; [|exact Hx].
  apply (accepted_pos u x xc); [apply in_unit_nonneg, Hu|exact Hx|exact Hacc].
Qed.

Lemma inner_loop_pos k :
  forall x g,
    is_pos (phat x) = true -> is_pos (phat (fst (inner k x g))) = true.
Proof.
  induction k as [|k IH]; intros x g Hx; simpl.
  - exact Hx.
  - unfold bind.
    pose proof (mh_step_pos x g Hx) as Hs.
    destruct (mh_step G uniform01 phat qpdf qsample x g) as [x' g'].
    apply IH, Hs.
Qed.

Lemma recorded_pos x N T g :
  is_pos (phat x) = true ->
  Forall (fun s => is_pos (phat s) = true)
    (snd (fst (MCMCDemo G np_sum uniform01 phat qpdf qsample x N T g))).
Proof.
  intros Hx. rewrite MCMCDemo_thinned.
  apply Forall_forall. intros s Hs.
  apply list_elem_of_In, in_map_iff in Hs.
  destruct Hs as (i & <- & _). apply inner_loop_pos, Hx.
Qed.

End PositiveDensity.

(** C9.  If [phat(x0) > 0], the proposal density is positive on every
    pair and the uniform draws lie in [0,1), then the chain state after
    any number of steps, and every sample [MCMCDemo] records, has
    positive target density; a candidate of density 0 has acceptance
    ratio 0 and is not accepted. *)
Theorem MCMCDemo_positive_density (G : Type) (np_sum : list float -> float)
  (uniform01 : Rand G float) (phat : float -> float)
  (qpdf : float -> float -> float) (qsample : float -> Rand G float)
  (x0 : float) :
  (forall g, in_unit (fst (uniform01 g)) = true) ->
  (forall x y, is_pos (qpdf x y) = true) ->
  is_pos (phat x0) = true ->
  (forall k g,
     is_pos (phat (fst (inner_loop G uniform01 phat qpdf qsample k x0 g))) = true)
  /\
  (forall N T g,
     Forall (fun s => is_pos (phat s) = true)
       (snd (fst (MCMCDemo G np_sum uniform01 phat qpdf qsample x0 N T g))))
  /\
  (forall u x xc,
     in_unit u = true -> is_zero (phat xc) = true ->
     is_zero (accept_ratio phat qpdf x xc) = true /\
     accepts phat qpdf u x xc = false).
Proof.
  intros Hu Hq Hx0. split; [|split].
  - intros k g. apply inner_loop_pos; assumption.
  - intros N T g. apply recorded_pos; assumption.
  - intros u x xc Hin Hc.
    pose proof (zero_candidate_ratio phat qpdf x xc Hc) as Hr.
    split; [exact Hr|].
    apply reject_when_ratio_zero; [apply in_unit_nonneg, Hin|exact Hr].
Qed.

(** * The burn-in cell *)

(** C8.  The recording call of the burn-in cell is [MCMCDemo] started at
    the caller's [x] on the generator the burn-in call leaves behind;
    the state the burn-in chain ends in is not used.  Two burn-in runs
    that leave the same generator state give the same recorded output,
    whatever their chains did. *)
Theorem burnin_state_not_chained (G : Type) (np_sum : list float -> float)
  (uniform01 : Rand G float) (phat : float -> float)
  (qpdf : float -> float -> float) (qsample : float -> Rand G float)
  (x : float) (Nburnin N T : nat) :
  (forall x0 g,
     burnin_then_sample G np_sum uniform01 phat qpdf qsample x0 x Nburnin N T g =
     MCMCDemo G np_sum uniform01 phat qpdf qsample x N T
       (snd (MCMCDemo G np_sum uniform01 phat qpdf qsample x0 Nburnin 1 g)))
  /\
  (forall x0 x0' g g',
     snd (MCMCDemo G np_sum uniform01 phat qpdf qsample x0 Nburnin 1 g) =
     snd (MCMCDemo G np_sum uniform01 phat qpdf qsample x0' Nburnin 1 g') ->
     burnin_then_sample G np_sum uniform01 phat qpdf qsample x0 x Nburnin N T g =
     burnin_then_sample G np_sum uniform01 phat qpdf qsample x0' x Nburnin N T g').
Proof.
  assert (forall x0 g,
     burnin_then_sample G np_sum uniform01 phat qpdf qsample x0 x Nburnin N T g =
     MCMCDemo G np_sum uniform01 phat qpdf qsample x N T
       (snd (MCMCDemo G np_sum uniform01 phat qpdf qsample x0 Nburnin 1 g))) as Hrun.
  { intros x0 g. unfold burnin_then_sample at 1. unfold bind at 1.
    destruct (MCMCDemo G np_sum uniform01 phat qpdf qsample x0 Nburnin 1 g)
      as [r g1].
    reflexivity. }
  split; [exact Hrun|].
  intros x0 x0' g g' Hg. rewrite !Hrun, Hg. reflexivity.
Qed.

(** * Rejection sampling *)

Section Rejection.

Variable G : Type.
Variable np_sum : list float -> float.
Variable fpow : float -> float -> float.
Variable fexp : float -> float.
Variable uniformN : nat -> Rand G (list float).

(** Selecting the entries of [x] at the indices where the test array
    is true yields the accepted subset; no index is out of range. *)
Lemma fancy_index_where (f : float -> float) (x : list float) :
  forall (pre u : list float),
    fancy_index (pre ++ x)
      (where_from (length pre) (zip_with ltb u (f <$> x)))
    = Some (accepted_subset f x u).
Proof.
  induction x as [|a x IH]; intros pre u.
  - destruct u; reflexivity.
  - destruct u as [|b u]; [reflexivity|].
    specialize (IH (pre ++ [a]) u).
    rewrite <- app_assoc, length_app, Nat.add_1_r in IH. cbn [app] in IH.
    unfold accepted_subset. cbn [fmap list_fmap zip_with zip where_from List.filter fst snd].
    destruct (ltb b (f a)) eqn:Hacc; cbn [Bool.eqb].
    + unfold fancy_index in *. cbn [mapM].
      rewrite list_lookup_middle by reflexivity.
      cbn [mbind option_bind]. rewrite IH. reflexivity.
    + exact IH.
Qed.

Lemma rejSamplingDemo_run a b qpdf k N g :
  rejSamplingDemo G np_sum fpow fexp uniformN a b qpdf k N g =
    (let x := fst (rvs qpdf N g) in
     let u := fst (uniformN N (snd (rvs qpdf N g))) in
     let acc := accepted_subset (rej_bound G fpow fexp a b qpdf k) x u in
     (Some (np_mean np_sum acc, acc),
      snd (uniformN N (snd (rvs qpdf N g))))).
Proof.
  unfold rejSamplingDemo, bind.
  destruct (rvs qpdf N g) as [x g1]. cbn [fst snd].
  destruct (uniformN N g1) as [u g2]. cbn [fst snd]. unfold ret.
  unfold np_where_true.
  rewrite (fancy_index_where _ x [] u). reflexivity.
Qed.

Lemma accepted_subset_none (f : float -> float) (x u : list float) :
  Forall2 (fun xi ui => ltb ui (f xi) = false) x u ->
  accepted_subset f x u = [].
Proof.
  induction 1 as [|xi ui x u Hrej _ IH]; [reflexivity|].
  unfold accepted_subset in *. cbn [zip zip_with List.filter fst snd].
  rewrite Hrej. exact IH.
Qed.

End Rejection.

(** C7.  [rejSamplingDemo] keeps, in order, exactly the samples [x_i]
    whose uniform draw [u_i] is strictly below
    [GammaUnnorm(x_i)/(k*pdf(x_i))], and returns the mean of that subset
    together with the subset. *)
Theorem rejSamplingDemo_accepts_below_bound (G : Type)
  (np_sum : list float -> float)
  (fpow : float -> float -> float) (fexp : float -> float)
  (uniformN : nat -> Rand G (list float))
  (a b : float) (qpdf : Distribution G) (k : float) (N : nat) (g : G) :
  let x := fst (rvs qpdf N g) in
  let g1 := snd (rvs qpdf N g) in
  let u := fst (uniformN N g1) in
  let accepted :=
    fst <$> List.filter
      (fun p => ltb (snd p)
                  (div (GammaUnnorm fpow fexp (fst p) a b) (mul k (pdf qpdf (fst p)))))
      (zip x u) in
  rejSamplingDemo G np_sum fpow fexp uniformN a b qpdf k N g =
    (Some (np_mean np_sum accepted, accepted), snd (uniformN N g1)).
Proof.
  cbv zeta. unfold rejSamplingDemo, bind.
  destruct (rvs qpdf N g) as [x g1]. cbn [fst snd].
  destruct (uniformN N g1) as [u g2]. cbn [fst snd].
  unfold ret, np_where_true.
  pose proof (fancy_index_where (rej_bound G fpow fexp a b qpdf k) x [] u)
    as Hsel.
  cbn [app length] in Hsel. rewrite Hsel. reflexivity.
Qed.

(** C10.  When the test rejects every sample, [rejSamplingDemo] raises
    nothing: it returns the empty subset and, as its estimate, the mean
    of an empty array, which is NaN (the sum of an empty array is 0.0
    and its length is 0). *)
Theorem rejSamplingDemo_all_rejected (G : Type)
  (np_sum : list float -> float)
  (fpow : float -> float -> float) (fexp : float -> float)
  (uniformN : nat -> Rand G (list float))
  (a b : float) (qpdf : Distribution G) (k : float) (N : nat) (g : G) :
  np_sum [] = zero ->
  Forall2 (fun xi ui => ltb ui (rej_bound G fpow fexp a b qpdf k xi) = false)
    (fst (rvs qpdf N g)) (fst (uniformN N (snd (rvs qpdf N g)))) ->
  rejSamplingDemo G np_sum fpow fexp uniformN a b qpdf k N g =
    (Some (nan, []), snd (uniformN N (snd (rvs qpdf N g)))).
Proof.
  intros Hsum Hrej. rewrite rejSamplingDemo_run. cbv zeta.
  rewrite (accepted_subset_none _ _ _ Hrej).
  unfold np_mean. rewrite Hsum. reflexivity.
Qed.

(** * Importance sampling *)

Section ExactNormalization.

(** Division by a fixed number distributes over an exact sum. *)
Lemma Qsum_div (s : Q) (ws : list Q) :
  (Qsum ((fun w => w / s) <$> ws) == Qsum ws / s)%Q.
Proof.
  induction ws as [|w ws IH]; simpl.
  - unfold Qdiv. ring.
  - rewrite IH. unfold Qdiv. ring.
Qed.

Lemma Qsum_nonneg (ws : list Q) :
  Forall (fun w => (0 < w)%Q) ws -> (0 <= Qsum ws)%Q.
Proof.
  induction 1 as [|w ws Hw _ IH]; simpl.
  - apply Qle_refl.
  - apply Qlt_le_weak in Hw.
    replace 0%Q with (0 + 0)%Q by reflexivity.
    apply Qplus_le_compat; assumption.
Qed.

Lemma Qsum_pos (ws : list Q) :
  ws <> [] -> Forall (fun w => (0 < w)%Q) ws -> (0 < Qsum ws)%Q.
Proof.
  intros Hne Hall. destruct Hall as [|w ws Hw Hall]; [congruence|].
  simpl. apply Qsum_nonneg in Hall.
  replace 0%Q with (0 + 0)%Q by reflexivity.
  apply Qplus_lt_le_compat; assumption.
Qed.

(** In exact arithmetic the normalized weights sum to 1. *)
Lemma normalize_exact_sum (ws : list Q) :
  ws <> [] -> Forall (fun w => (0 < w)%Q) ws ->
  (Qsum (normalize_by Qdiv Qsum ws) == 1)%Q.
Proof.
  intros Hne Hall. unfold normalize_by.
  rewrite Qsum_div. unfold Qdiv.
  apply Qmult_inv_r.
  pose proof (Qsum_pos ws Hne Hall) as Hpos.
  intros Hz. rewrite Hz in Hpos. exact (Qlt_irrefl _ Hpos).
Qed.

End ExactNormalization.

(** * The statements on concrete runs *)

Section DemoFacts.

Import Demo.

Lemma tape_uniform01_unit (g : tape) : in_unit (fst (tape_uniform01 g)) = true.
Proof.
  destruct g as [|u r]; [reflexivity|]. simpl. unfold clamp_unit.
  destruct (in_unit u) eqn:Hu; [exact Hu|reflexivity].
Qed.

Lemma qpdf_flat_pos (x y : float) : is_pos (qpdf_flat x y) = true.
Proof. reflexivity. Qed.

End DemoFacts.

(** The notebook's own start: the chain is at [x = 0.0], where
    [GammaUnnorm(0, 2.5, 1) = 0], the candidate is [1.0] and [u = 0.5].
    The ratio is not 0 and the chain moves to the candidate. *)
Lemma mh_zero_density_accepts_counterexample :
  is_zero (Demo.phat_gamma zero) = true /\
  in_unit Demo.half = true /\
  accept_ratio Demo.phat_gamma Demo.qpdf_norm zero one <> zero /\
  fst (mh_step Demo.tape Demo.tape_uniform01 Demo.phat_gamma Demo.qpdf_norm
         Demo.tape_qsample zero [Demo.half; one]) <> zero.
Proof. repeat split; vm_compute; discriminate. Qed.

Lemma mh_zero_density_step_witness :
  accept_ratio Demo.phat_gamma Demo.qpdf_norm zero one = max_float /\
  accepts Demo.phat_gamma Demo.qpdf_norm Demo.half zero one = true.
Proof.
  destruct (mh_zero_density_step Demo.phat_gamma Demo.qpdf_norm zero one Demo.half)
    as [_ H]; [reflexivity|reflexivity|].
  apply H; reflexivity.
Defined.

Lemma acceptance_ratio_never_nan_witness :
  accept_ratio Demo.phat_gamma Demo.qpdf_norm zero Demo.minus_one = zero /\
  accepts Demo.phat_gamma Demo.qpdf_norm Demo.half zero Demo.minus_one = false.
Proof.
  destruct (acceptance_ratio_never_nan Demo.phat_gamma Demo.qpdf_norm
              Demo.pow_tab Demo.exp_tab) as (_ & H & _).
  destruct (H zero Demo.minus_one) as [Hr Hu]; [reflexivity|reflexivity|].
  split; [exact Hr|apply Hu; reflexivity].
Defined.

Lemma MCMCDemo_refines_spec_witness :
  MCMCDemo Demo.tape Demo.seq_sum Demo.tape_uniform01 Demo.phat_gamma
    Demo.qpdf_norm Demo.tape_qsample zero 2 1
    [Demo.half; one; Demo.half; Demo.minus_one] =
  MH_spec Demo.tape Demo.seq_sum Demo.tape_uniform01 Demo.phat_gamma
    Demo.qpdf_norm Demo.tape_qsample zero 2 1
    [Demo.half; one; Demo.half; Demo.minus_one].
Proof.
  apply (MCMCDemo_refines_spec Demo.tape Demo.seq_sum Demo.tape_uniform01
           Demo.phat_gamma Demo.qpdf_norm Demo.tape_qsample).
  exact tape_uniform01_unit.
Defined.

Lemma MCMCDemo_output_length_witness :
  length (snd (fst (MCMCDemo Demo.tape Demo.seq_sum Demo.tape_uniform01
                      Demo.phat_gamma Demo.qpdf_norm Demo.tape_qsample zero 3 2
                      [Demo.half; one; Demo.half; Demo.minus_one]))) = 3%nat.
Proof.
  apply (MCMCDemo_output_length Demo.tape Demo.seq_sum Demo.tape_uniform01
           Demo.phat_gamma Demo.qpdf_norm Demo.tape_qsample zero 3 2).
  lia.
Defined.

Lemma MCMCDemo_positive_density_witness :
  Forall (fun s => is_pos (Demo.phat_halfline s) = true)
    (snd (fst (MCMCDemo Demo.tape Demo.seq_sum Demo.tape_uniform01
                 Demo.phat_halfline Demo.qpdf_flat Demo.tape_qsample one 2 1
                 [Demo.half; Demo.minus_one; Demo.half; one]))).
Proof.
  destruct (MCMCDemo_positive_density Demo.tape Demo.seq_sum Demo.tape_uniform01
              Demo.phat_halfline Demo.qpdf_flat Demo.tape_qsample one)
    as (_ & H & _).
  - exact tape_uniform01_unit.
  - exact qpdf_flat_pos.
  - reflexivity.
  - apply H.
Defined.

(** Two burn-in runs that end in different states (the first accepts
    its candidate 1.0, the second rejects its candidate -1.0) and leave
    the same tape: the recorded output is the same. *)
Lemma burnin_state_not_chained_witness :
  fst (MCMCDemo Demo.tape Demo.seq_sum Demo.tape_uniform01 Demo.phat_gamma
         Demo.qpdf_norm Demo.tape_qsample zero 1 1 [Demo.half; one; Demo.half; one])
  <>
  fst (MCMCDemo Demo.tape Demo.seq_sum Demo.tape_uniform01 Demo.phat_gamma
         Demo.qpdf_norm Demo.tape_qsample zero 1 1
         [Demo.half; Demo.minus_one; Demo.half; one])
  /\
  burnin_then_sample Demo.tape Demo.seq_sum Demo.tape_uniform01 Demo.phat_gamma
    Demo.qpdf_norm Demo.tape_qsample zero zero 1 1 1
    [Demo.half; one; Demo.half; one] =
  burnin_then_sample Demo.tape Demo.seq_sum Demo.tape_uniform01 Demo.phat_gamma
    Demo.qpdf_norm Demo.tape_qsample zero zero 1 1 1
    [Demo.half; Demo.minus_one; Demo.half; one].
Proof.
  split; [vm_compute; discriminate|].
  destruct (burnin_state_not_chained Demo.tape Demo.seq_sum Demo.tape_uniform01
              Demo.phat_gamma Demo.qpdf_norm Demo.tape_qsample zero 1 1 1)
    as [_ H].
  apply H. reflexivity.
Defined.

(** Two samples at 0.0 with bound 1/(10*1) = 0.1 and draws 0.5, 0.25:
    both are rejected. *)
Lemma rejSamplingDemo_all_rejected_witness :
  rejSamplingDemo Demo.tape Demo.seq_sum Demo.pow_tab Demo.exp_tab
    Demo.tape_uniformN one one Demo.dist_flat Demo.ten 2
    [zero; zero; Demo.half; Demo.quarter] = (Some (nan, []), []).
Proof.
  apply (rejSamplingDemo_all_rejected Demo.tape Demo.seq_sum Demo.pow_tab
           Demo.exp_tab Demo.tape_uniformN one one Demo.dist_flat Demo.ten 2
           [zero; zero; Demo.half; Demo.quarter]).
  - reflexivity.
  - repeat constructor.
Defined.

(** Six samples with equal raw weight 1.0: every normalized weight is
    the double nearest to 1/6, and their sum is 0.9999999999999999. *)
Lemma impSamplingDemo_weights_sum_counterexample :
  let out := fst (impSamplingDemo Demo.tape Demo.seq_sum Demo.pow_tab
                    Demo.exp_tab one one Demo.dist_flat 6 (replicate 6 zero)) in
  forallb pos_finite
    (raw_weight Demo.tape Demo.pow_tab Demo.exp_tab one one Demo.dist_flat
       <$> snd (fst out)) = true /\
  Demo.seq_sum (snd out) = S754_finite false 9007199254740991 (-53) /\
  eqb (Demo.seq_sum (snd out)) one = false.
Proof. repeat split. Qed.

(** * Further properties of [MCMCDemo] *)

Section MHMore.

Variable G : Type.
Variable np_sum : list float -> float.
Variable uniform01 : Rand G float.
Variable phat : float -> float.
Variable qpdf : float -> float -> float.
Variable qsample : float -> Rand G float.

Local Abbreviation step := (mh_step G uniform01 phat qpdf qsample).
Local Abbreviation inner := (inner_loop G uniform01 phat qpdf qsample).

Lemma map_lookup {A B : Type} (f : A -> B) (l : list A) (i : nat) :
  map f l !! i = f <$> (l !! i).
Proof.
  revert i. induction l as [|a l IH]; intros [|i]; simpl; try reflexivity.
  apply IH.
Qed.

Lemma map_seq_offset {B : Type} (f : nat -> B) (a n : nat) :
  map f (seq a n) = map (fun j => f (a + j)%nat) (seq 0 n).
Proof.
  revert a. induction n as [|n IH]; intros a; [reflexivity|].
  cbn [seq map]. rewrite Nat.add_0_r. f_equal.
  rewrite IH, <- seq_shift, map_map.
  apply map_ext. intros j. f_equal. lia.
Qed.

(** Thinning only selects: the samples recorded with interval [T] are
    the samples with indices [T-1], [2T-1], ... of the run that records
    every state, and both runs leave the generator in the same state. *)
Theorem MCMCDemo_thinning_selects (x : float) (N T i : nat) (g : G) :
  (1 <= T)%nat -> (i < N)%nat ->
  snd (fst (MCMCDemo G np_sum uniform01 phat qpdf qsample x N T g)) !! i =
    snd (fst (MCMCDemo G np_sum uniform01 phat qpdf qsample x (N * T) 1 g))
      !! (S i * T - 1)%nat
  /\ snd (MCMCDemo G np_sum uniform01 phat qpdf qsample x N T g) =
     snd (MCMCDemo G np_sum uniform01 phat qpdf qsample x (N * T) 1 g).
Proof.
  intros HT Hi. split.
  - rewrite !MCMCDemo_thinned, !map_lookup.
    rewrite !lookup_seq_lt by nia. cbn [fmap option_fmap option_map].
    f_equal. f_equal. f_equal. nia.
  - rewrite !MCMCDemo_generator. f_equal. f_equal. lia.
Qed.

(** A run of [N1 + N2] samples is a run of [N1] samples followed by a
    run of [N2] samples that starts at the last sample of the first run
    on the generator the first run leaves. *)
Theorem MCMCDemo_continuation (x xl : float) (N1 N2 T : nat) (g : G) :
  let first := MCMCDemo G np_sum uniform01 phat qpdf qsample x N1 T g in
  last (snd (fst first)) = Some xl ->
  snd (fst (MCMCDemo G np_sum uniform01 phat qpdf qsample x (N1 + N2) T g)) =
    snd (fst first) ++
    snd (fst (MCMCDemo G np_sum uniform01 phat qpdf qsample xl N2 T (snd first)))
  /\ snd (MCMCDemo G np_sum uniform01 phat qpdf qsample x (N1 + N2) T g) =
     snd (MCMCDemo G np_sum uniform01 phat qpdf qsample xl N2 T (snd first)).
Proof.
  cbv zeta. intros Hlast.
  rewrite !MCMCDemo_thinned, !MCMCDemo_generator in *.
  destruct N1 as [|n]; [discriminate Hlast|].
  rewrite seq_S, map_app in Hlast. cbn [map] in Hlast.
  rewrite last_snoc in Hlast. injection Hlast as Hxl.
  change (0 + n)%nat with n in Hxl.
  assert (forall k, inner (S n * T + k) x g =
                    inner k xl (snd (inner (S n * T) x g))) as Hsplit.
  { intros k. rewrite inner_loop_app.
    change (S n * T)%nat with (T + n * T)%nat. rewrite <- Hxl.
    destruct (inner (T + n * T) x g) as [xe ge]. reflexivity. }
  split.
  - rewrite seq_app, map_app. f_equal.
    rewrite map_seq_offset. apply map_ext. intros j.
    replace (S (0 + S n + j) * T)%nat with (S n * T + S j * T)%nat by lia.
    rewrite Hsplit. reflexivity.
  - replace ((S n + N2) * T)%nat with (S n * T + N2 * T)%nat by lia.
    rewrite Hsplit. reflexivity.
Qed.

(** With [T = 0] no proposal is made: every recorded sample is the
    initial state and the generator is not used. *)
Theorem MCMCDemo_no_steps (x : float) (N : nat) (g : G) :
  MCMCDemo G np_sum uniform01 phat qpdf qsample x N 0 g =
    ((np_mean np_sum (replicate N x), replicate N x), g).
Proof.
  unfold MCMCDemo, bind.
  rewrite outer_loop_chain by (rewrite length_replicate; lia).
  rewrite Nat.mul_0_r. cbn [inner_loop ret take app fst snd].
  assert (map (fun i => fst (inner (S i * 0) x g)) (seq 0 N) = replicate N x)
    as ->.
  { rewrite (map_ext _ (fun _ => x))
      by (intros i; rewrite Nat.mul_0_r; reflexivity).
    generalize 0%nat. induction N as [|n IH]; intros a; [reflexivity|].
    cbn [seq map replicate]. f_equal. apply IH. }
  reflexivity.
Qed.

(** With [N = 0] the result is an empty array and the mean of an empty
    array, NaN; the generator is not used. *)
Theorem MCMCDemo_no_samples (x : float) (T : nat) (g : G) :
  np_sum [] = zero ->
  MCMCDemo G np_sum uniform01 phat qpdf qsample x 0 T g = ((nan, []), g).
Proof.
  intros Hsum. unfold MCMCDemo, bind. cbn [seq replicate outer_loop ret snd].
  unfold np_mean. rewrite Hsum. reflexivity.
Qed.

Lemma mh_step_cases (x : float) (g : G) :
  fst (step x g) = x \/
  fst (step x g) = fst (qsample x (snd (uniform01 g))).
Proof.
  unfold mh_step, bind.
  destruct (uniform01 g) as [u g1]. cbn [snd].
  destruct (qsample x g1) as [xc g2]. cbn [fst ret].
  destruct (accepts phat qpdf u x xc); [right|left]; reflexivity.
Qed.

Lemma inner_loop_invariant (P : float -> Prop) :
  (forall y g', P y -> P (fst (qsample y g'))) ->
  forall k x g, P x -> P (fst (inner k x g)).
Proof.
  intros Hq. induction k as [|k IH]; intros x g Hx; [exact Hx|].
  cbn [inner_loop]. unfold bind.
  pose proof (mh_step_cases x g) as Hc.
  destruct (step x g) as [x' g']. cbn [fst] in Hc.
  apply IH. destruct Hc as [-> | ->]; [exact Hx|apply Hq, Hx].
Qed.

(** Any set that contains the initial state and is closed under the
    proposal sampler contains every recorded sample. *)
Theorem MCMCDemo_invariant (P : float -> Prop) (x : float) (N T : nat) (g : G) :
  P x ->
  (forall y g', P y -> P (fst (qsample y g'))) ->
  Forall P (snd (fst (MCMCDemo G np_sum uniform01 phat qpdf qsample x N T g))).
Proof.
  intros Hx Hq. rewrite MCMCDemo_thinned.
  apply Forall_forall. intros s Hs.
  apply list_elem_of_In, in_map_iff in Hs.
  destruct Hs as (i & <- & _).
  apply inner_loop_invariant; assumption.
Qed.

(** If the sampler only ever proposes points of density 0, the chain
    never moves: every recorded sample is the initial state. *)
Theorem MCMCDemo_stuck (x : float) (N T : nat) (g : G) :
  (forall g', in_unit (fst (uniform01 g')) = true) ->
  (forall y g', is_zero (phat (fst (qsample y g'))) = true) ->
  snd (fst (MCMCDemo G np_sum uniform01 phat qpdf qsample x N T g))
    = replicate N x.
Proof.
  intros Hu Hz.
  assert (forall k g', fst (inner k x g') = x) as Hstay.
  { induction k as [|k IH]; intros g'; [reflexivity|].
    cbn [inner_loop]. unfold bind.
    assert (fst (step x g') = x) as Hs.
    { unfold mh_step, bind.
      pose proof (Hu g') as Hu'.
      destruct (uniform01 g') as [u g1]. cbn [fst] in Hu'.
      pose proof (Hz x g1) as Hz'.
      destruct (qsample x g1) as [xc g2]. cbn [fst ret] in *.
      rewrite reject_when_ratio_zero; [reflexivity| |].
      - apply in_unit_nonneg, Hu'.
      - apply zero_candidate_ratio, Hz'. }
    destruct (step x g') as [x' g'']. cbn [fst] in Hs. subst x'.
    apply IH. }
  rewrite MCMCDemo_thinned.
  rewrite (map_ext _ (fun _ => x)) by (intros i; apply Hstay).
  generalize 0%nat. induction N as [|n IH]; intros a; [reflexivity|].
  cbn [seq map replicate]. f_equal. apply IH.
Qed.

End MHMore.

(** * Further properties of the rejection and importance samplers *)

Section EstimatorsMore.

Variable G : Type.
Variable np_sum : list float -> float.
Variable fpow : float -> float -> float.
Variable fexp : float -> float.
Variable uniformN : nat -> Rand G (list float).


Lemma accepted_subset_sublist (f : float -> float) (x : list float) :
  forall u, accepted_subset f x u `sublist_of` x.
Proof.
  induction x as [|a x IH]; intros u.
  - destruct u; constructor.
  - destruct u as [|b u]; [apply sublist_nil_l|].
    unfold accepted_subset in *. cbn [zip zip_with List.filter fst snd].
    destruct (ltb b (f a)); cbn [fmap list_fmap fst].
    + apply sublist_skip, IH.
    + apply sublist_cons, IH.
Qed.

Lemma accepted_subset_below (f : float -> float) (x u : list float) (s : float) :
  s ∈ accepted_subset f x u -> exists ui, ui ∈ u /\ ltb ui (f s) = true.
Proof.
  unfold accepted_subset. intros Hs.
  apply list_elem_of_fmap in Hs. destruct Hs as ([s' ui] & -> & Hin).
  apply list_elem_of_In, filter_In in Hin. destruct Hin as [Hin Hlt].
  apply list_elem_of_In in Hin. exists ui. split; [|exact Hlt].
  apply (elem_of_zip_r _ _ _ _ Hin).
Qed.

Lemma accepted_subset_all (f : float -> float) (x u : list float) :
  Forall2 (fun xi ui => ltb ui (f xi) = true) x u ->
  accepted_subset f x u = x.
Proof.
  induction 1 as [|xi ui x u Hacc _ IH]; [reflexivity|].
  unfold accepted_subset in *. cbn [zip zip_with List.filter fst snd].
  rewrite Hacc. cbn [fmap list_fmap fst]. f_equal. exact IH.
Qed.

Lemma above_nonneg_pos u r :
  leb zero u = true -> ltb u r = true -> is_pos r = true.
Proof.
  intros Hu Hlt.
  destruct r as [s|[]| |[] m e]; try reflexivity;
    destruct u as [t|[]| |[] mu eu]; simpl in Hu, Hlt; discriminate.
Qed.

(** Whenever [rejSamplingDemo] returns, the subset it returns consists
    of some of the drawn samples, in the order drawn, so there are at
    most as many of them as were drawn, and the estimate is the mean of
    that subset. *)
Theorem rejSamplingDemo_sublist (a b : float) (qpdf : Distribution G)
  (k : float) (N : nat) (g : G) (estmean : float) (acc : list float) :
  fst (rejSamplingDemo G np_sum fpow fexp uniformN a b qpdf k N g)
    = Some (estmean, acc) ->
  acc `sublist_of` fst (rvs qpdf N g) /\
  (length acc <= length (fst (rvs qpdf N g)))%nat /\
  estmean = np_mean np_sum acc.
Proof.
  rewrite rejSamplingDemo_run. cbv zeta. cbn [fst].
  intros Hret. injection Hret as Hm Hacc. subst estmean acc.
  pose proof (accepted_subset_sublist (rej_bound G fpow fexp a b qpdf k)
                (fst (rvs qpdf N g))
                (fst (uniformN N (snd (rvs qpdf N g))))) as Hsub.
  split; [exact Hsub|]. split; [apply sublist_length, Hsub|reflexivity].
Qed.

(** With uniform draws in [0,1), a positive envelope factor [k] and a
    proposal density that is never negative, every accepted sample has
    positive target density. *)
Theorem rejSamplingDemo_support (a b : float) (qpdf : Distribution G)
  (k : float) (N : nat) (g : G) :
  (forall n g', Forall (fun u => in_unit u = true) (fst (uniformN n g'))) ->
  is_pos k = true ->
  (forall y, sign_of (pdf qpdf y) = Some false) ->
  exists acc,
    fst (rejSamplingDemo G np_sum fpow fexp uniformN a b qpdf k N g)
      = Some (np_mean np_sum acc, acc) /\
    Forall (fun s => is_pos (GammaUnnorm fpow fexp s a b) = true) acc.
Proof.
  intros Hu Hk Hpdf.
  rewrite rejSamplingDemo_run. cbv zeta. cbn [fst].
  eexists. split; [reflexivity|].
  apply Forall_forall. intros s Hs.
  apply accepted_subset_below in Hs. destruct Hs as (ui & Hui & Hlt).
  pose proof (Hu N (snd (rvs qpdf N g))) as Hall.
  rewrite Forall_forall in Hall. specialize (Hall ui Hui).
  apply (above_nonneg_pos ui) in Hlt; [|apply in_unit_nonneg, Hall].
  unfold rej_bound in Hlt.
  apply (div_pos_inv _ _ Hlt).
  apply (mul_sign k (pdf qpdf s) false false);
    [apply is_pos_sign, Hk|apply Hpdf].
Qed.

(** When every draw is below its bound, the whole sample is returned
    with its mean. *)
Theorem rejSamplingDemo_all_accepted (a b : float) (qpdf : Distribution G)
  (k : float) (N : nat) (g : G) :
  Forall2 (fun xi ui => ltb ui (rej_bound G fpow fexp a b qpdf k xi) = true)
    (fst (rvs qpdf N g)) (fst (uniformN N (snd (rvs qpdf N g)))) ->
  fst (rejSamplingDemo G np_sum fpow fexp uniformN a b qpdf k N g) =
    Some (np_mean np_sum (fst (rvs qpdf N g)), fst (rvs qpdf N g)).
Proof.
  intros Hall. rewrite rejSamplingDemo_run. cbv zeta. cbn [fst].
  rewrite (accepted_subset_all _ _ _ Hall). reflexivity.
Qed.

Lemma div_by_zero_not_finite r z :
  is_zero z = true -> is_finite (div r z) = false.
Proof.
  destruct z as [s|[]| |[] m e]; simpl; intros Hz; try discriminate.
  destruct r as [t|t| |t mr er]; reflexivity.
Qed.

Lemma div_self (s : bool) (m : positive) (e : Z) :
  div (S754_finite s m e) (S754_finite s m e) = one.
Proof.
  unfold div, SFdiv, SFdiv_core_binary.
  rewrite Z.sub_diag.
  replace (Zdigits2 (Z.pos m) + e - (Zdigits2 (Z.pos m) + e)) with 0 by lia.
  change (Z.min (SpecFloat.fexp prec emax 0) 0) with (-53).
  change (0 - -53) with 53.
  cbv iota beta zeta.
  rewrite Z.shiftl_mul_pow2 by lia.
  assert (Z.div_eucl (Z.pos m * 2 ^ 53) (Z.pos m) = (2 ^ 53, 0)) as ->.
  { pose proof (Z.div_mul (2 ^ 53) (Z.pos m) ltac:(lia)) as Hq.
    pose proof (Z.mod_mul (2 ^ 53) (Z.pos m) ltac:(lia)) as Hr.
    rewrite (Z.mul_comm (2 ^ 53)) in Hq, Hr.
    unfold Z.div, Z.modulo in Hq, Hr.
    destruct (Z.div_eucl (Z.pos m * 2 ^ 53) (Z.pos m)) as [q r].
    subst. reflexivity. }
  unfold new_location. destruct (Z.even (Z.pos m)), s; reflexivity.
Qed.

(** The samples and the weights come back with the same length, the
    samples being the draws themselves.  When the raw weights sum to
    zero, as they do when no sample falls into the support of the
    target, no returned weight is a finite number: a zero raw weight
    becomes NaN and any other becomes infinite. *)
Theorem impSamplingDemo_zero_total (a b : float) (qpdf : Distribution G)
  (N : nat) (g : G) :
  let x := fst (rvs qpdf N g) in
  let wl := snd (fst (impSamplingDemo G np_sum fpow fexp a b qpdf N g)) in
  is_zero (np_sum (raw_weight G fpow fexp a b qpdf <$> x)) = true ->
  Forall (fun w => is_finite w = false) wl /\ length wl = length x.
Proof.
  cbv zeta. intros Hz. unfold impSamplingDemo, bind.
  destruct (rvs qpdf N g) as [x g1]. cbn [fst snd ret] in *.
  unfold normalize_weights, normalize_by. split.
  - apply Forall_fmap, Forall_forall. intros r _. cbn.
    apply div_by_zero_not_finite, Hz.
  - rewrite !length_fmap. reflexivity.
Qed.

(** With a single sample whose raw weight is a nonzero finite number,
    the normalized weight is exactly 1. *)
Theorem impSamplingDemo_single_sample (a b : float) (qpdf : Distribution G)
  (g : G) (x : float) (s : bool) (m : positive) (e : Z) :
  fst (rvs qpdf 1 g) = [x] ->
  raw_weight G fpow fexp a b qpdf x = S754_finite s m e ->
  np_sum [S754_finite s m e] = S754_finite s m e ->
  snd (fst (impSamplingDemo G np_sum fpow fexp a b qpdf 1 g)) = [one] /\
  fst (fst (fst (impSamplingDemo G np_sum fpow fexp a b qpdf 1 g))) = np_sum [mul x one].
Proof.
  intros Hx Hraw Hsum. unfold impSamplingDemo, bind.
  destruct (rvs qpdf 1 g) as [xs g1]. cbn [fst snd ret] in *. subst xs.
  unfold normalize_weights, normalize_by.
  cbn [fmap list_fmap zip_with]. rewrite Hraw, Hsum, div_self.
  split; reflexivity.
Qed.

End EstimatorsMore.

(** * [estimatePi] *)

Section EstimatePiFacts.

Variable G : Type.
Variable uniform_array : float -> float -> nat -> Rand G (list float).
Variable fpow : float -> float -> float.

Lemma where_false_negb (t : list bool) :
  forall i, where_false_from i t = where_from i (negb <$> t).
Proof.
  induction t as [|b t IH]; intros i; [reflexivity|].
  cbn [where_false_from fmap list_fmap where_from]. rewrite IH.
  destruct b; reflexivity.
Qed.

Lemma select_by_false {A : Type} (x : list A) :
  forall t, select_by false x t = select_by true x (negb <$> t).
Proof.
  unfold select_by.
  induction x as [|a x IH]; intros t; [reflexivity|].
  destruct t as [|b t]; [reflexivity|].
  specialize (IH t).
  destruct b; simpl in *; [exact IH|f_equal; exact IH].
Qed.

(** Indexing with the positions of the true entries of a mask that is
    no longer than the array never leaves the array. *)
Lemma fancy_index_mask (x : list float) :
  forall (t : list bool) (pre : list float),
    (length t <= length x)%nat ->
    fancy_index (pre ++ x) (where_from (length pre) t)
    = Some (select_by true x t).
Proof.
  induction x as [|a x IH]; intros t pre Hlen.
  - destruct t; [reflexivity|simpl in Hlen; lia].
  - destruct t as [|b t]; [reflexivity|].
    specialize (IH t (pre ++ [a])).
    rewrite <- app_assoc, length_app, Nat.add_1_r in IH. cbn [app] in IH.
    specialize (IH ltac:(simpl in Hlen; lia)).
    unfold select_by in *.
    cbn [fmap list_fmap zip zip_with where_from List.filter fst snd].
    destruct b; cbn [Bool.eqb].
    + unfold fancy_index in *. cbn [mapM].
      rewrite list_lookup_middle by reflexivity.
      cbn [mbind option_bind]. rewrite IH. reflexivity.
    + exact IH.
Qed.

Lemma select_zip (f : float -> float -> bool) (v : bool) (x : list float) :
  forall y,
    zip (select_by v x (zip_with f x y)) (select_by v y (zip_with f x y))
    = List.filter (fun p => Bool.eqb (f (fst p) (snd p)) v) (zip x y).
Proof.
  unfold select_by.
  induction x as [|a x IH]; intros y; [reflexivity|].
  destruct y as [|b y]; [reflexivity|].
  cbn [zip zip_with List.filter fst snd].
  destruct (Bool.eqb (f a b) v); cbn [fmap list_fmap zip_with fst];
    [f_equal|]; apply IH.
Qed.

Lemma filter_both {A : Type} (p : A -> bool) (l : list A) :
  List.filter (fun a => Bool.eqb (p a) true) l ++
  List.filter (fun a => Bool.eqb (p a) false) l ≡ₚ l.
Proof.
  induction l as [|a l IH]; [reflexivity|].
  cbn [List.filter]. destruct (p a); cbn [Bool.eqb app].
  - constructor. exact IH.
  - rewrite <- Permutation_middle. constructor. exact IH.
Qed.

Lemma fancy_index_length (x : list float) (ic : list nat) (r : list float) :
  fancy_index x ic = Some r -> length r = length ic.
Proof.
  unfold fancy_index. intros H. apply mapM_Some_1, Forall2_length in H.
  symmetry. exact H.
Qed.

(** With [N = 0] the division [Nin/N] raises [ZeroDivisionError],
    whatever the box size and whether or not a plot is asked for. *)
Theorem estimatePi_zero_samples (boxsize : float) (doplot : bool) (g : G) :
  fst (estimatePi G uniform_array fpow 0 boxsize doplot g) = None.
Proof.
  unfold estimatePi, bind.
  destruct (uniform_array zero boxsize 0%nat g) as [x g1].
  destruct (uniform_array zero boxsize 0%nat g1) as [y g2].
  reflexivity.
Qed.

(** Whenever [estimatePi] returns, [N] is not 0, the estimate is
    [4*(Nin/N)*boxsize**2] with [Nin] the number of green points,
    whether or not a plot was asked for, and the plot, if asked for,
    shows every drawn point exactly once: green if it satisfies
    [x**2 + y**2 <= 1], red if it does not. *)
Theorem estimatePi_counts_and_plots (N : nat) (boxsize : float)
  (doplot : bool) (g : G) (pi_est : float)
  (plots : list (list float * list float)) :
  fst (estimatePi G uniform_array fpow N boxsize doplot g)
    = Some (pi_est, plots) ->
  let x := fst (uniform_array zero boxsize N g) in
  let g1 := snd (uniform_array zero boxsize N g) in
  let y := fst (uniform_array zero boxsize N g1) in
  exists gx gy rx ry,
    N <> 0%nat /\
    pi_est =
      mul (mul (of_Z 4) (div (of_Z (Z.of_nat (length gx))) (of_Z (Z.of_nat N))))
          (fpow boxsize (of_Z 2)) /\
    plots = (if doplot then [(gx, gy); (rx, ry)] else []) /\
    length gx = length gy /\ length rx = length ry /\
    zip gx gy ++ zip rx ry ≡ₚ zip x y /\
    Forall (fun p => in_circle (fst p) (snd p) = true) (zip gx gy) /\
    Forall (fun p => in_circle (fst p) (snd p) = false) (zip rx ry).
Proof.
  cbv zeta. unfold estimatePi, bind.
  destruct (uniform_array zero boxsize N g) as [x g1]. cbn [fst snd].
  destruct (uniform_array zero boxsize N g1) as [y g2]. cbn [fst snd ret].
  set (t := zip_with in_circle x y).
  assert (length t <= length x)%nat as Hx
    by (unfold t; rewrite length_zip_with; lia).
  assert (length t <= length y)%nat as Hy
    by (unfold t; rewrite length_zip_with; lia).
  assert (length (negb <$> t) <= length x)%nat as Hx'
    by (rewrite length_fmap; exact Hx).
  assert (length (negb <$> t) <= length y)%nat as Hy'
    by (rewrite length_fmap; exact Hy).
  unfold np_where_true, np_where_false. rewrite where_false_negb.
  pose proof (fancy_index_mask x t [] Hx) as Hgx.
  pose proof (fancy_index_mask y t [] Hy) as Hgy.
  pose proof (fancy_index_mask x (negb <$> t) [] Hx') as Hrx.
  pose proof (fancy_index_mask y (negb <$> t) [] Hy') as Hry.
  cbn [app length] in Hgx, Hgy, Hrx, Hry.
  rewrite Hgx, Hgy, Hrx, Hry.
  pose proof (fancy_index_length _ _ _ Hgx) as Lgx.
  pose proof (fancy_index_length _ _ _ Hgy) as Lgy.
  pose proof (fancy_index_length _ _ _ Hrx) as Lrx.
  pose proof (fancy_index_length _ _ _ Hry) as Lry.
  rewrite <- Lgx.
  rewrite <- !select_by_false in *.
  unfold py_true_div. destruct (Nat.eqb_spec N 0) as [|HN]; [discriminate|].
  intros Hret.
  exists (select_by true x t), (select_by true y t),
         (select_by false x t), (select_by false y t).
  split; [exact HN|].
  split; [destruct doplot; injection Hret as <- _; reflexivity|].
  split; [destruct doplot; injection Hret as _ <-; reflexivity|].
  split; [rewrite Lgx, Lgy; reflexivity|].
  split; [rewrite Lrx, Lry; reflexivity|].
  unfold t. rewrite !select_zip.
  split; [apply filter_both|].
  split; apply Forall_forall; intros p Hp;
    apply list_elem_of_In, filter_In in Hp; destruct Hp as [_ Hp];
    destruct (in_circle p.1 p.2); simpl in Hp; congruence.
Qed.

End EstimatePiFacts.

(** * Rounding never produces a NaN *)

Section RoundingFacts.

Lemma shr_1_nonneg (mrs : shr_record) :
  0 <= shr_m mrs -> 0 <= shr_m (shr_1 mrs).
Proof.
  destruct mrs as [m r s]. simpl.
  destruct m as [|[p|p|]|[p|p|]]; simpl; lia.
Qed.

Lemma iter_pos_nonneg (n : positive) :
  forall mrs, 0 <= shr_m mrs -> 0 <= shr_m (SpecFloat.iter_pos shr_1 n mrs).
Proof.
  induction n as [n IH|n IH|]; intros mrs H; simpl.
  - apply IH, IH, shr_1_nonneg, H.
  - apply IH, IH, H.
  - apply shr_1_nonneg, H.
Qed.

Lemma shr_fexp_nonneg (m e : Z) (l : location) :
  0 <= m -> 0 <= shr_m (fst (shr_fexp prec emax m e l)).
Proof.
  intros Hm. unfold shr_fexp, shr.
  assert (0 <= shr_m (shr_record_of_loc m l)) as H0
    by (destruct l as [|[]]; exact Hm).
  destruct (SpecFloat.fexp prec emax (Zdigits2 m + e) - e) as [|p|p];
    cbn [fst]; [exact H0| |exact H0].
  apply iter_pos_nonneg, H0.
Qed.

Lemma round_nearest_even_nonneg (m : Z) (l : location) :
  0 <= m -> 0 <= round_nearest_even m l.
Proof.
  intros Hm. destruct l as [|[]]; simpl; try lia.
  destruct (Z.even m); lia.
Qed.

Lemma round_not_nan (s : bool) (m e : Z) (l : location) :
  0 <= m -> is_nan (binary_round_aux prec emax s m e l) = false.
Proof.
  intros Hm. unfold binary_round_aux.
  pose proof (shr_fexp_nonneg m e l Hm) as H1.
  destruct (shr_fexp prec emax m e l) as [mrs' e']. cbn [fst] in H1.
  pose proof (shr_fexp_nonneg _ e' loc_Exact
                (round_nearest_even_nonneg _ (loc_of_shr_record mrs') H1)) as H2.
  destruct (shr_fexp prec emax _ e' loc_Exact) as [mrs'' e'']. cbn [fst] in H2.
  destruct (shr_m mrs'') as [|p|p]; [reflexivity| |lia].
  destruct (Z.leb _ _); reflexivity.
Qed.

(** A finite number divided by a nonzero finite number is not a NaN. *)
Lemma div_finite_not_nan (n d : float) :
  is_finite n = true -> is_finite d = true -> is_zero d = false ->
  is_nan (div n d) = false.
Proof.
  intros Hn Hd Hz.
  destruct d as [sd|sd| |sd md ed]; try discriminate.
  destruct n as [sn|sn| |sn mn en]; try discriminate; [reflexivity|].
  unfold div, SFdiv, SFdiv_core_binary.
  set (s := en - ed - _).
  set (m' := match s with Z.pos _ => Z.shiftl (Z.pos mn) s
                     | 0 => Z.pos mn | Z.neg _ => 0 end).
  assert (0 <= m') as Hm'.
  { unfold m'. destruct s; try lia. apply Z.shiftl_nonneg. lia. }
  pose proof (Z.div_pos m' (Z.pos md) Hm' ltac:(lia)) as Hq.
  unfold Z.div in Hq.
  destruct (Z.div_eucl m' (Z.pos md)) as [q r].
  apply round_not_nan, Hq.
Qed.

(** The sum of two numbers that are not negative is not negative. *)
Lemma add_sign (x y : float) :
  nan_or_sign false x = true -> nan_or_sign false y = true ->
  nan_or_sign false (add x y) = true.
Proof.
  intros Hx Hy.
  destruct x as [[]|[]| |[] mx ex]; try discriminate Hx; try reflexivity;
    destruct y as [[]|[]| |[] my ey]; try discriminate Hy; try reflexivity.
  unfold add, SFadd, cond_Zopp.
  rewrite <- Pos2Z.inj_add.
  unfold binary_normalize, binary_round.
  destruct (shl_align (_ + _) _ _) as [mz ez].
  apply round_sign.
Qed.

End RoundingFacts.

(** * The densities [Gamma] and [GMMUnnorm] *)

(** On float64 operands, for which [**], [np.exp] and the division
    return an infinity or a NaN where they have no finite value,
    [GammaUnnorm] returns a finite number.  When [sp.special.gamma(a)]
    is a nonzero finite number, [Gamma] is never a NaN, and it is a
    zero wherever the expression of [GammaUnnorm] evaluates to NaN. *)
Theorem Gamma_never_nan (fpow : float -> float -> float)
  (fexp fgamma : float -> float) (x a b : float) :
  is_finite (GammaUnnorm fpow fexp x a b) = true /\
  (is_finite (fgamma a) = true -> is_zero (fgamma a) = false ->
   is_nan (Gamma fpow fexp fgamma x a b) = false /\
   (is_nan (GammaUnnorm_raw fpow fexp x a b) = true ->
    is_zero (Gamma fpow fexp fgamma x a b) = true)).
Proof.
  assert (is_finite (GammaUnnorm fpow fexp x a b) = true) as Hu.
  { unfold GammaUnnorm.
    destruct (GammaUnnorm_raw fpow fexp x a b) as [s|[]| |s m e]; reflexivity. }
  split; [exact Hu|]. intros Hfin Hnz. split.
  - apply div_finite_not_nan; assumption.
  - intros Hraw. unfold Gamma, GammaUnnorm.
    destruct (GammaUnnorm_raw fpow fexp x a b); try discriminate Hraw.
    cbn [nan_to_num].
    destruct (fgamma a) as [s|s| |s m e]; try discriminate; reflexivity.
Qed.

Section GMMFacts.

Variable gexp : float -> float.
Variable glog : float -> float.

Lemma GMM_loop_zip (x : float) (ws : list float) :
  forall (ds : list (float -> float)) (w0 : list float)
         (d0 : list (float -> float)) (logp : float),
    length w0 = length d0 ->
    GMM_loop gexp glog (seq (length w0) (length ws)) x (w0 ++ ws) (d0 ++ ds) logp
    = if (length ws <=? length ds)%nat
      then Some (foldl (fun acc c => add acc (GMM_term gexp glog x c)) logp
                   (zip ws ds))
      else None.
Proof.
  induction ws as [|w ws IH]; intros ds w0 d0 logp Hlen.
  - reflexivity.
  - cbn [length seq GMM_loop].
    rewrite list_lookup_middle by reflexivity.
    destruct ds as [|d ds].
    + rewrite lookup_ge_None_2 by (rewrite length_app; simpl; lia).
      reflexivity.
    + rewrite list_lookup_middle by exact Hlen.
      specialize (IH ds (w0 ++ [w]) (d0 ++ [d])
                    (add logp (gexp (add (glog w) (d x))))).
      rewrite <- !app_assoc, !length_app in IH. cbn [app length] in IH.
      rewrite Nat.add_1_r in IH. rewrite IH by lia.
      reflexivity.
Qed.

(** [GMMUnnorm] raises [IndexError] exactly when there are fewer
    components than weights; otherwise it is the sum, from left to
    right, of the terms [exp(log(pi[i]) + logpdf_i(x))] over the
    weights, and components beyond the last weight are ignored. *)
Theorem GMMUnnorm_sum_or_error (x : float) (pi : list float)
  (normpdfs : list (float -> float)) :
  GMMUnnorm gexp glog x pi normpdfs =
    if (length pi <=? length normpdfs)%nat
    then Some (foldl (fun acc c => add acc (GMM_term gexp glog x c)) zero
                 (zip pi normpdfs))
    else None.
Proof.
  unfold GMMUnnorm.
  apply (GMM_loop_zip x pi normpdfs [] [] zero). reflexivity.
Qed.

(** If [exp] never returns a negative number, the mixture density is
    never negative. *)
Theorem GMMUnnorm_never_negative (x : float) (pi : list float)
  (normpdfs : list (float -> float)) (r : float) :
  (forall v, nan_or_sign false (gexp v) = true) ->
  GMMUnnorm gexp glog x pi normpdfs = Some r ->
  nan_or_sign false r = true /\ ltb r zero = false.
Proof.
  intros Hexp Hr. rewrite GMMUnnorm_sum_or_error in Hr.
  destruct (length pi <=? length normpdfs)%nat; [|discriminate].
  injection Hr as <-.
  assert (forall cs acc, nan_or_sign false acc = true ->
            nan_or_sign false
              (foldl (fun acc c => add acc (GMM_term gexp glog x c)) acc cs)
            = true) as Hfold.
  { induction cs as [|c cs IH]; intros acc Hacc; [exact Hacc|].
    cbn [foldl]. apply IH, add_sign; [exact Hacc|apply Hexp]. }
  specialize (Hfold (zip pi normpdfs) zero eq_refl).
  split; [exact Hfold|].
  destruct (foldl _ zero (zip pi normpdfs)) as [[]|[]| |[] m e];
    try discriminate Hfold; reflexivity.
Qed.

End GMMFacts.

(** * The further properties on concrete runs *)

Section DemoMoreFacts.

Import Demo DemoMore.

Lemma clamp_unit_in_unit (u : float) : in_unit (clamp_unit u) = true.
Proof.
  unfold clamp_unit. destruct (in_unit u) eqn:Hu; [exact Hu|reflexivity].
Qed.

Lemma tape_uniformN_unit (n : nat) (g : tape) :
  Forall (fun u => in_unit u = true) (fst (tape_uniformN n g)).
Proof.
  unfold tape_uniformN. cbn [fst]. apply Forall_fmap, Forall_forall.
  intros u _. apply clamp_unit_in_unit.
Qed.

Lemma qsample_reflect_nonneg (y : float) (g : tape) :
  nan_or_sign false (fst (qsample_reflect y g)) = true.
Proof.
  unfold qsample_reflect. destruct (tape_qsample y g) as [z r].
  destruct z; reflexivity.
Qed.

Lemma qsample_left_zero_density (y : float) (g : tape) :
  is_zero (phat_halfline (fst (qsample_left y g))) = true.
Proof.
  unfold qsample_left. destruct (tape_qsample y g) as [z r].
  destruct z; reflexivity.
Qed.

Lemma exp_tab_nonneg (v : float) : nan_or_sign false (exp_tab v) = true.
Proof.
  unfold exp_tab.
  repeat match goal with
         | |- context [match ?t with _ => _ end] => destruct t
         end; reflexivity.
Qed.

End DemoMoreFacts.

Lemma MCMCDemo_thinning_selects_witness :
  snd (fst (MCMCDemo Demo.tape Demo.seq_sum Demo.tape_uniform01 Demo.phat_gamma
              Demo.qpdf_norm Demo.tape_qsample zero 2 2
              [Demo.half; one; Demo.half; Demo.minus_one])) !! 1%nat =
  snd (fst (MCMCDemo Demo.tape Demo.seq_sum Demo.tape_uniform01 Demo.phat_gamma
              Demo.qpdf_norm Demo.tape_qsample zero (2 * 2) 1
              [Demo.half; one; Demo.half; Demo.minus_one])) !! (2 * 2 - 1)%nat.
Proof.
  apply (MCMCDemo_thinning_selects Demo.tape Demo.seq_sum Demo.tape_uniform01
           Demo.phat_gamma Demo.qpdf_norm Demo.tape_qsample zero 2 2 1); lia.
Defined.

Lemma MCMCDemo_continuation_witness :
  snd (fst (MCMCDemo Demo.tape Demo.seq_sum Demo.tape_uniform01 Demo.phat_gamma
              Demo.qpdf_norm Demo.tape_qsample zero (1 + 1) 1
              [Demo.half; one; Demo.half; Demo.minus_one])) =
  snd (fst (MCMCDemo Demo.tape Demo.seq_sum Demo.tape_uniform01 Demo.phat_gamma
              Demo.qpdf_norm Demo.tape_qsample zero 1 1
              [Demo.half; one; Demo.half; Demo.minus_one])) ++
  snd (fst (MCMCDemo Demo.tape Demo.seq_sum Demo.tape_uniform01 Demo.phat_gamma
              Demo.qpdf_norm Demo.tape_qsample one 1 1
              [Demo.half; Demo.minus_one])).
Proof.
  apply (MCMCDemo_continuation Demo.tape Demo.seq_sum Demo.tape_uniform01
           Demo.phat_gamma Demo.qpdf_norm Demo.tape_qsample zero one 1 1 1
           [Demo.half; one; Demo.half; Demo.minus_one]).
  reflexivity.
Defined.

Lemma MCMCDemo_no_samples_witness :
  MCMCDemo Demo.tape Demo.seq_sum Demo.tape_uniform01 Demo.phat_gamma
    Demo.qpdf_norm Demo.tape_qsample zero 0 5 [Demo.half; one] =
  ((nan, []), [Demo.half; one]).
Proof.
  apply (MCMCDemo_no_samples Demo.tape Demo.seq_sum Demo.tape_uniform01
           Demo.phat_gamma Demo.qpdf_norm Demo.tape_qsample zero 5).
  reflexivity.
Defined.

Lemma MCMCDemo_invariant_witness :
  Forall (fun v => nan_or_sign false v = true)
    (snd (fst (MCMCDemo Demo.tape Demo.seq_sum Demo.tape_uniform01
                 Demo.phat_halfline Demo.qpdf_flat DemoMore.qsample_reflect
                 one 2 1 [Demo.half; Demo.minus_one; Demo.half; Demo.minus_one]))).
Proof.
  apply (MCMCDemo_invariant Demo.tape Demo.seq_sum Demo.tape_uniform01
           Demo.phat_halfline Demo.qpdf_flat DemoMore.qsample_reflect
           (fun v => nan_or_sign false v = true)).
  - reflexivity.
  - intros y g' _. apply qsample_reflect_nonneg.
Defined.

Lemma MCMCDemo_stuck_witness :
  snd (fst (MCMCDemo Demo.tape Demo.seq_sum Demo.tape_uniform01
              Demo.phat_halfline Demo.qpdf_flat DemoMore.qsample_left
              one 2 1 [Demo.half; one; Demo.half; one])) = replicate 2 one.
Proof.
  apply (MCMCDemo_stuck Demo.tape Demo.seq_sum Demo.tape_uniform01
           Demo.phat_halfline Demo.qpdf_flat DemoMore.qsample_left).
  - exact tape_uniform01_unit.
  - exact qsample_left_zero_density.
Defined.

Lemma rejSamplingDemo_support_witness :
  exists acc,
    fst (rejSamplingDemo Demo.tape Demo.seq_sum Demo.pow_tab Demo.exp_tab
           Demo.tape_uniformN one one Demo.dist_flat Demo.ten 2
           [zero; zero; zero; Demo.half]) =
      Some (np_mean Demo.seq_sum acc, acc) /\
    Forall (fun s => is_pos (GammaUnnorm Demo.pow_tab Demo.exp_tab s one one) = true)
      acc.
Proof.
  apply (rejSamplingDemo_support Demo.tape Demo.seq_sum Demo.pow_tab
           Demo.exp_tab Demo.tape_uniformN one one Demo.dist_flat Demo.ten 2).
  - exact tape_uniformN_unit.
  - reflexivity.
  - intros y. reflexivity.
Defined.

Lemma rejSamplingDemo_all_accepted_witness :
  fst (rejSamplingDemo Demo.tape Demo.seq_sum Demo.pow_tab Demo.exp_tab
         Demo.tape_uniformN one one Demo.dist_flat Demo.ten 2
         [zero; zero; zero; zero]) =
  Some (np_mean Demo.seq_sum [zero; zero], [zero; zero]).
Proof.
  apply (rejSamplingDemo_all_accepted Demo.tape Demo.seq_sum Demo.pow_tab
           Demo.exp_tab Demo.tape_uniformN one one Demo.dist_flat Demo.ten 2
           [zero; zero; zero; zero]).
  repeat constructor.
Defined.

(** Samples 0.0 and 0.0 with draws 0.0 and 0.5 against the bound 0.1:
    the first sample is kept, the second is not. *)
Lemma rejSamplingDemo_sublist_witness :
  [zero] `sublist_of` [zero; zero] /\
  (length [zero] <= length [zero; zero])%nat /\
  div zero one = np_mean Demo.seq_sum [zero].
Proof.
  apply (rejSamplingDemo_sublist Demo.tape Demo.seq_sum Demo.pow_tab
           Demo.exp_tab Demo.tape_uniformN one one Demo.dist_flat Demo.ten 2
           [zero; zero; zero; Demo.half] (div zero one) [zero]).
  reflexivity.
Defined.

(** Two samples at -1.0, outside the support of the Gamma target: both
    raw weights are 0 and both returned weights are NaN. *)
Lemma impSamplingDemo_zero_total_witness :
  Forall (fun w => is_finite w = false)
    (snd (fst (impSamplingDemo Demo.tape Demo.seq_sum Demo.pow_tab Demo.exp_tab
                 Demo.two_and_half one Demo.dist_flat 2
                 [Demo.minus_one; Demo.minus_one]))).
Proof.
  apply (impSamplingDemo_zero_total Demo.tape Demo.seq_sum Demo.pow_tab
           Demo.exp_tab Demo.two_and_half one Demo.dist_flat 2
           [Demo.minus_one; Demo.minus_one]).
  reflexivity.
Defined.

Lemma impSamplingDemo_single_sample_witness :
  snd (fst (impSamplingDemo Demo.tape Demo.seq_sum Demo.pow_tab Demo.exp_tab
              one one Demo.dist_flat 1 [zero])) = [one].
Proof.
  apply (impSamplingDemo_single_sample Demo.tape Demo.seq_sum Demo.pow_tab
           Demo.exp_tab one one Demo.dist_flat [zero] zero
           false 4503599627370496 (-52)); reflexivity.
Defined.

(** Two points, (0.5, 0.5) inside the circle and (1, 1) outside: the
    estimate is 4*(1/2)*1 = 2, one point is green and one is red. *)
Lemma estimatePi_counts_and_plots_witness :
  exists gx gy rx ry,
    [([Demo.half], [Demo.half]); ([one], [one])] = [(gx, gy); (rx, ry)] /\
    zip gx gy ++ zip rx ry ≡ₚ zip [Demo.half; one] [Demo.half; one].
Proof.
  destruct (estimatePi_counts_and_plots Demo.tape DemoMore.tape_uniform_array
              DemoMore.pow_square 2 one true [Demo.half; one; Demo.half; one]
              DemoMore.two [([Demo.half], [Demo.half]); ([one], [one])])
    as (gx & gy & rx & ry & _ & _ & H1 & _ & _ & H2 & _); [reflexivity|].
  exists gx, gy, rx, ry. split; [exact H1|exact H2].
Defined.

(** [Gamma(-1.0, a=2.5, b=1)]: [(-1.0)**1.5] is NaN, so the value is 0. *)
Lemma Gamma_never_nan_witness :
  is_nan (Gamma Demo.pow_tab DemoMore.exp_tab1 DemoMore.gamma_tab
            Demo.minus_one Demo.two_and_half one) = false /\
  is_zero (Gamma Demo.pow_tab DemoMore.exp_tab1 DemoMore.gamma_tab
             Demo.minus_one Demo.two_and_half one) = true.
Proof.
  destruct (Gamma_never_nan Demo.pow_tab DemoMore.exp_tab1 DemoMore.gamma_tab
              Demo.minus_one Demo.two_and_half one) as [_ H].
  destruct H as [H1 H2]; [reflexivity|reflexivity|].
  split; [exact H1|apply H2; reflexivity].
Defined.

(** One component of weight 1 with log-density 0: the mixture density
    is exp(log(1) + 0) = 1. *)
Lemma GMMUnnorm_never_negative_witness :
  GMMUnnorm Demo.exp_tab DemoMore.log_tab zero [one] [DemoMore.logpdf_flat]
    = Some one /\
  nan_or_sign false one = true /\ ltb one zero = false.
Proof.
  split; [reflexivity|].
  apply (GMMUnnorm_never_negative Demo.exp_tab DemoMore.log_tab zero
           [one] [DemoMore.logpdf_flat] one).
  - exact exp_tab_nonneg.
  - reflexivity.
Defined.

(** * The rounding error of the normalization *)

Section RoundingError.

Lemma shr_1_half (mrs : shr_record) :
  0 <= shr_m mrs -> shr_m (shr_1 mrs) = shr_m mrs / 2.
Proof.
  intros H. rewrite <- Z.div2_div.
  destruct mrs as [m r s]. simpl in *.
  destruct m as [|[p|p|]|p]; try reflexivity. lia.
Qed.

Lemma iter_shr_div (p : positive) :
  forall mrs, 0 <= shr_m mrs ->
    shr_m (SpecFloat.iter_pos shr_1 p mrs) = shr_m mrs / 2 ^ Z.pos p.
Proof.
  induction p as [p IH|p IH|]; intros mrs H; simpl SpecFloat.iter_pos.
  - assert (0 < 2 ^ Z.pos p) as Hp by (apply Z.pow_pos_nonneg; lia).
    rewrite IH, IH, shr_1_half; try assumption.
    + rewrite !Z.div_div by lia. f_equal.
      rewrite (Pos2Z.inj_xI p).
      replace (2 * Z.pos p + 1) with (1 + Z.pos p + Z.pos p) by lia.
      rewrite !Z.pow_add_r by lia. change (2 ^ 1) with 2. ring.
    + apply shr_1_nonneg, H.
    + apply iter_pos_nonneg, shr_1_nonneg, H.
  - assert (0 < 2 ^ Z.pos p) as Hp by (apply Z.pow_pos_nonneg; lia).
    rewrite IH, IH; try assumption.
    + rewrite !Z.div_div by lia. f_equal.
      rewrite (Pos2Z.inj_xO p).
      replace (2 * Z.pos p) with (Z.pos p + Z.pos p) by lia.
      rewrite !Z.pow_add_r by lia. ring.
    + apply iter_pos_nonneg, H.
  - rewrite shr_1_half by assumption. reflexivity.
Qed.

Lemma shr_fexp_div (m e : Z) (l : location) :
  0 <= m ->
  e <= snd (shr_fexp prec emax m e l) /\
  shr_m (fst (shr_fexp prec emax m e l)) =
    m / 2 ^ (snd (shr_fexp prec emax m e l) - e).
Proof.
  intros Hm. unfold shr_fexp, shr.
  assert (shr_m (shr_record_of_loc m l) = m) as H0
    by (destruct l as [|[]]; reflexivity).
  destruct (SpecFloat.fexp prec emax (Zdigits2 m + e) - e) as [|p|p];
    cbn [fst snd].
  - rewrite Z.sub_diag, Z.div_1_r. split; [lia|exact H0].
  - split; [lia|]. rewrite iter_shr_div by lia. rewrite H0. f_equal. f_equal. lia.
  - rewrite Z.sub_diag, Z.div_1_r. split; [lia|exact H0].
Qed.

Lemma round_nearest_even_range (m : Z) (l : location) :
  m <= round_nearest_even m l <= m + 1.
Proof.
  destruct l as [|[]]; simpl; try lia. destruct (Z.even m); lia.
Qed.

Lemma div_succ_le (a b : Z) : 0 < b -> (a + 1) / b <= a / b + 1.
Proof.
  intros Hb. rewrite <- (Z.div_add a 1 b) by lia.
  apply Z.div_le_mono; lia.
Qed.

(** Rounding is faithful: the mantissa returned is the truncated
    mantissa or its successor. *)
Lemma round_aux_faithful (s s' : bool) (mx ex : Z) (lx : location)
  (m : positive) (e : Z) :
  0 <= mx ->
  binary_round_aux prec emax s mx ex lx = S754_finite s' m e ->
  s' = s /\ ex <= e /\
  mx / 2 ^ (e - ex) <= Z.pos m <= mx / 2 ^ (e - ex) + 1.
Proof.
  intros Hm. unfold binary_round_aux.
  pose proof (shr_fexp_div mx ex lx Hm) as [He1 Hq1].
  pose proof (shr_fexp_nonneg mx ex lx Hm) as Hn1.
  destruct (shr_fexp prec emax mx ex lx) as [mrs1 e1]. cbn [fst snd] in *.
  pose proof (round_nearest_even_range (shr_m mrs1) (loc_of_shr_record mrs1)) as Hr.
  set (r := round_nearest_even (shr_m mrs1) (loc_of_shr_record mrs1)) in *.
  assert (0 <= r) as Hr0 by lia.
  pose proof (shr_fexp_div r e1 loc_Exact Hr0) as [He2 Hq2].
  destruct (shr_fexp prec emax r e1 loc_Exact) as [mrs2 e2]. cbn [fst snd] in *.
  destruct (shr_m mrs2) as [|p|p] eqn:Hm2; try discriminate.
  destruct (Z.leb e2 (emax - prec)); try discriminate.
  intros Heq. injection Heq as <- <- <-.
  split; [reflexivity|]. split; [lia|].
  assert (0 < 2 ^ (e1 - ex)) as Hp1 by (apply Z.pow_pos_nonneg; lia).
  assert (0 < 2 ^ (e2 - e1)) as Hp2 by (apply Z.pow_pos_nonneg; lia).
  replace (e2 - ex) with ((e1 - ex) + (e2 - e1)) by lia.
  rewrite Z.pow_add_r, <- Z.div_div by lia.
  rewrite <- Hq1. rewrite Hq2. split.
  - apply Z.div_le_mono; lia.
  - etransitivity; [apply Z.div_le_mono with (b := shr_m mrs1 + 1); lia|].
    apply div_succ_le. lia.
Qed.

Lemma div_core_spec (ma mb : positive) (ea eb q e' : Z) (l : location) :
  SFdiv_core_binary prec emax (Z.pos ma) ea (Z.pos mb) eb = (q, e', l) ->
  e' <= ea - eb /\ q = (Z.pos ma * 2 ^ (ea - eb - e')) / Z.pos mb.
Proof.
  unfold SFdiv_core_binary.
  set (e0 := Z.min _ (ea - eb)).
  assert (e0 <= ea - eb) as He0 by apply Z.le_min_r.
  set (m' := match ea - eb - e0 with
             | Z.pos _ => Z.shiftl (Z.pos ma) (ea - eb - e0)
             | 0 => Z.pos ma | Z.neg _ => 0 end).
  assert (m' = Z.pos ma * 2 ^ (ea - eb - e0)) as Hm'.
  { unfold m'. destruct (ea - eb - e0) as [|p|p] eqn:Hs.
    - rewrite Z.pow_0_r. lia.
    - apply Z.shiftl_mul_pow2. lia.
    - lia. }
  pose proof (eq_refl (m' / Z.pos mb)) as Hd. unfold Z.div at 1 in Hd.
  destruct (Z.div_eucl m' (Z.pos mb)) as [q0 r0].
  intros Heq. injection Heq as <- <- <-.
  split; [exact He0|]. rewrite <- Hm'. exact Hd.
Qed.

(** The quotient of two positive finite numbers, when finite, is within
    one unit in the last place of the exact quotient. *)
Lemma div_faithful (ma mb mr : positive) (ea eb er : Z) (sr : bool) :
  div (S754_finite false ma ea) (S754_finite false mb eb) = S754_finite sr mr er ->
  sr = false /\
  exists e', e' <= ea - eb /\ e' <= er /\
    Z.pos ma * 2 ^ (ea - eb - e') - Z.pos mb * 2 ^ (er - e')
      <= Z.pos mr * (Z.pos mb * 2 ^ (er - e'))
      <= Z.pos ma * 2 ^ (ea - eb - e') + Z.pos mb * 2 ^ (er - e').
Proof.
  unfold div, SFdiv.
  destruct (SFdiv_core_binary prec emax (Z.pos ma) ea (Z.pos mb) eb)
    as [[q e'] l] eqn:Hcore.
  apply div_core_spec in Hcore. destruct Hcore as [He' Hq].
  intros Hr.
  assert (0 <= q) as Hq0.
  { rewrite Hq. apply Z.div_pos; [|lia].
    apply Z.mul_nonneg_nonneg; [lia|]. apply Z.pow_nonneg. lia. }
  apply round_aux_faithful in Hr; [|exact Hq0].
  destruct Hr as (-> & Her & Hlo & Hhi).
  split; [reflexivity|]. exists e'. split; [exact He'|]. split; [exact Her|].
  set (A := Z.pos ma * 2 ^ (ea - eb - e')) in *.
  assert (0 < 2 ^ (er - e')) as Hp by (apply Z.pow_pos_nonneg; lia).
  set (P := 2 ^ (er - e')) in *.
  rewrite Hq, Z.div_div in Hlo, Hhi by lia.
  set (D := Z.pos mb * P) in *.
  assert (0 < D) as HD by (unfold D; lia).
  pose proof (Z.div_mod A D ltac:(lia)) as Hdm.
  pose proof (Z.mod_pos_bound A D HD) as Hmod.
  nia.
Qed.

End RoundingError.

Section RoundingErrorQ.

Lemma pow2_pos (e : Z) : (0 < pow2 e)%Q.
Proof. unfold pow2. apply Qpower_0_lt. reflexivity. Qed.

Lemma pow2_add (a b : Z) : (pow2 (a + b) == pow2 a * pow2 b)%Q.
Proof. unfold pow2. apply Qpower_plus. discriminate. Qed.

Lemma pow2_inject (k : Z) : 0 <= k -> (inject_Z (2 ^ k) == pow2 k)%Q.
Proof. intros Hk. unfold pow2. apply (Zpower_Qpower 2 k Hk). Qed.

Lemma F2Q_pos (x : float) : pos_finite x = true -> (0 < F2Q x)%Q.
Proof.
  destruct x as [s|s| |[] m e]; try discriminate. intros _. cbn [F2Q].
  apply Qmult_lt_0_compat; [|apply pow2_pos]. reflexivity.
Qed.

(** The error of one division, relative to the computed quotient. *)
Lemma div_error (a b : float) :
  pos_finite a = true -> pos_finite b = true ->
  is_normal (div a b) = true ->
  ((1 - eps) * (F2Q (div a b) * F2Q b) <= F2Q a /\
   F2Q a <= (1 + eps) * (F2Q (div a b) * F2Q b))%Q.
Proof.
  destruct a as [s|s| |[] ma ea]; try discriminate.
  destruct b as [s|s| |[] mb eb]; try discriminate.
  intros _ _.
  destruct (div (S754_finite false ma ea) (S754_finite false mb eb))
    as [s|s| |sr mr er] eqn:Hdiv; try discriminate.
  destruct (div_faithful _ _ _ _ _ _ _ Hdiv) as (-> & e' & He' & Her & Hlo & Hhi).
  cbn [is_normal]. intros Hn. apply Z.leb_le in Hn.
  set (k := er - e') in *. set (sh := ea - eb - e') in *.
  assert (0 < 2 ^ k) as Hk by (apply Z.pow_pos_nonneg; lia).
  set (D := Z.pos mb * 2 ^ k) in *.
  set (A := Z.pos ma * 2 ^ sh) in *.
  set (X := Z.pos mr * D) in *.
  assert (0 < D) as HD by (unfold D; lia).
  assert (4503599627370495 * X <= 4503599627370496 * A
          /\ 4503599627370496 * A <= 4503599627370497 * X) as [HZ1 HZ2]
    by (unfold X in *; nia).
  rewrite Zle_Qle, !inject_Z_mult in HZ1, HZ2.
  set (c := pow2 (e' + eb)).
  assert (0 < c)%Q as Hc by apply pow2_pos.
  assert (F2Q (S754_finite false ma ea) == inject_Z A * c)%Q as ->.
  { cbn [F2Q]. unfold A, c. rewrite inject_Z_mult, pow2_inject by lia.
    replace ea with (sh + (e' + eb)) at 1 by lia.
    rewrite pow2_add. ring. }
  assert (F2Q (S754_finite false mr er) * F2Q (S754_finite false mb eb)
          == inject_Z X * c)%Q as ->.
  { cbn [F2Q]. unfold X, D, c. rewrite !inject_Z_mult, pow2_inject by lia.
    replace er with (k + e') at 1 by lia.
    rewrite !pow2_add. ring. }
  set (Xq := inject_Z X) in *. set (Aq := inject_Z A) in *.
  apply (Qmult_le_compat_r _ _ c) in HZ1; [|apply Qlt_le_weak, Hc].
  apply (Qmult_le_compat_r _ _ c) in HZ2; [|apply Qlt_le_weak, Hc].
  set (Xc := (Xq * c)%Q) in *. set (Ac := (Aq * c)%Q) in *.
  assert (inject_Z 4503599627370495 * Xq * c == 4503599627370495 * Xc)%Q as E1
    by (unfold Xc; ring).
  assert (inject_Z 4503599627370496 * Aq * c == 4503599627370496 * Ac)%Q as E2
    by (unfold Ac; ring).
  assert (inject_Z 4503599627370497 * Xq * c == 4503599627370497 * Xc)%Q as E3
    by (unfold Xc; ring).
  rewrite E1, E2 in HZ1. rewrite E2, E3 in HZ2.
  unfold eps. split; lra.
Qed.

Lemma Qsum_cons (a : Q) (l : list Q) : Qsum (a :: l) = (a + Qsum l)%Q.
Proof. reflexivity. Qed.

Lemma weights_sum_bound (S : float) (raw : list float) :
  pos_finite S = true ->
  Forall (fun r => pos_finite r = true) raw ->
  Forall (fun w => is_normal w = true) ((fun r => div r S) <$> raw) ->
  ((1 - eps) * (Qsum (F2Q <$> ((fun r => div r S) <$> raw)) * F2Q S)
     <= Qsum (F2Q <$> raw) /\
   Qsum (F2Q <$> raw)
     <= (1 + eps) * (Qsum (F2Q <$> ((fun r => div r S) <$> raw)) * F2Q S))%Q.
Proof.
  intros HS Hraw. induction Hraw as [|r raw Hr _ IH]; intros Hn.
  - cbn. split; unfold eps; lra.
  - cbn [fmap list_fmap] in *. inversion Hn as [|w wl Hw Hwl]; subst.
    specialize (IH Hwl). destruct IH as [IH1 IH2].
    destruct (div_error r S Hr HS Hw) as [H1 H2].
    rewrite !Qsum_cons.
    set (W := Qsum (F2Q <$> ((fun r0 => div r0 S) <$> raw))) in *.
    set (R := Qsum (F2Q <$> raw)) in *.
    set (ws := (F2Q (div r S) * F2Q S)%Q) in *.
    assert ((F2Q (div r S) + W) * F2Q S == ws + W * F2Q S)%Q as ->
      by (unfold ws; ring).
    set (Ws := (W * F2Q S)%Q) in *.
    unfold eps in *. split; lra.
Qed.

End RoundingErrorQ.

(** C6 (as amended).  For raw weights that are positive and finite,
    whose [np.sum] [S] is positive and finite and whose normalized
    weights are normal doubles, the weights [impSamplingDemo] returns
    sum to 1 up to rounding.  With [W] the exact sum of the returned
    weights and [R] the exact sum of the raw weights,
    [(1 - 2^-52) * W * S <= R <= (1 + 2^-52) * W * S]; hence, if [S] is
    within a relative error [eta] of [R],
    [(1 - eta)/(1 + 2^-52) <= W <= (1 + eta)/(1 - 2^-52)].  The returned
    estimate is [np.sum(x_i * w_i)] under the returned weights. *)
Theorem impSamplingDemo_weights_sum_rounding (G : Type)
  (np_sum : list float -> float)
  (fpow : float -> float -> float) (fexp : float -> float)
  (a b : float) (qpdf : Distribution G) (N : nat) (g : G) :
  let x := fst (rvs qpdf N g) in
  let raw :=
    (fun xi => div (GammaUnnorm fpow fexp xi a b) (pdf qpdf xi)) <$> x in
  let S := np_sum raw in
  let out := fst (impSamplingDemo G np_sum fpow fexp a b qpdf N g) in
  let W := Qsum (F2Q <$> snd out) in
  let R := Qsum (F2Q <$> raw) in
  Forall (fun r => pos_finite r = true) raw ->
  pos_finite S = true ->
  Forall (fun w => is_normal w = true) (snd out) ->
  fst (fst out) = np_sum (zip_with mul x (snd out)) /\
  ((1 - eps) * (W * F2Q S) <= R /\ R <= (1 + eps) * (W * F2Q S))%Q /\
  (forall eta : Q,
     ((1 - eta) * F2Q S <= R -> R <= (1 + eta) * F2Q S ->
      1 - eta <= (1 + eps) * W /\ (1 - eps) * W <= 1 + eta)%Q).
Proof.
  cbv zeta. unfold impSamplingDemo, bind.
  destruct (rvs qpdf N g) as [x g1]. cbn [fst snd ret].
  unfold normalize_weights, normalize_by, raw_weight.
  set (raw := (fun xi => div (GammaUnnorm fpow fexp xi a b) (pdf qpdf xi)) <$> x).
  set (S := np_sum raw).
  intros Hraw HS Hnorm.
  split; [reflexivity|].
  destruct (weights_sum_bound S raw HS Hraw Hnorm) as [Hlo Hhi].
  split; [split; assumption|].
  intros eta H1 H2.
  pose proof (F2Q_pos S HS) as Hs.
  set (W := Qsum (F2Q <$> ((fun r => div r S) <$> raw))) in *.
  set (R := Qsum (F2Q <$> raw)) in *.
  split.
  - apply (Qmult_lt_0_le_reg_r _ _ (F2Q S) Hs).
    assert ((1 + eps) * W * F2Q S == (1 + eps) * (W * F2Q S))%Q as -> by ring.
    lra.
  - apply (Qmult_lt_0_le_reg_r _ _ (F2Q S) Hs).
    assert ((1 - eps) * W * F2Q S == (1 - eps) * (W * F2Q S))%Q as -> by ring.
    lra.
Qed.

(** Six samples with raw weight 1.0 each: their sum 6.0 is exact, every
    weight is the double nearest to 1/6, and the exact sum of the six
    weights lies within a factor [1 +- 2^-52] of 1. *)
Lemma impSamplingDemo_weights_sum_rounding_witness :
  let W := Qsum (F2Q <$> snd (fst (impSamplingDemo Demo.tape Demo.seq_sum
                                     Demo.pow_tab Demo.exp_tab one one
                                     Demo.dist_flat 6 (replicate 6 zero)))) in
  (1 - 0 <= (1 + eps) * W /\ (1 - eps) * W <= 1 + 0)%Q.
Proof.
  destruct (impSamplingDemo_weights_sum_rounding Demo.tape Demo.seq_sum
              Demo.pow_tab Demo.exp_tab one one Demo.dist_flat 6
              (replicate 6 zero)) as (_ & _ & H).
  - repeat constructor.
  - reflexivity.
  - repeat constructor.
  - apply (H 0%Q); vm_compute; discriminate.
Defined.
